(** * Real-time chat relay: validation, presence registry, session handlers

    A shallow embedding of
      - [src/validation/schemas.ts]   (Zod schemas and the [validate] helper),
      - [src/services/user.service.ts] ([InMemoryUserStore], [UserService]),
      - [src/services/message.service.ts] ([MessageService]),
      - [src/socket/handlers.ts]      (the Socket.IO event handlers),
    followed by the properties of the presence registry and of the
    room-broadcast protocol.

    JavaScript strings are modelled as [string]; a character stands for the
    UTF-16 code unit of the same number, so the model covers the strings
    whose code units lie in U+0000..U+00FF. *)

From Stdlib Require Import Ascii String NArith Lia.
From stdpp Require Import base option list strings gmap.

Local Open Scope string_scope.

(* ===================================================================== *)
(** ** JavaScript string primitives *)
(* ===================================================================== *)

Module JsString.

Definition code_unit (c : ascii) : N := N_of_ascii c.

Definition in_range (lo hi : N) (c : ascii) : bool :=
  ((lo <=? code_unit c) && (code_unit c <=? hi))%N.

(** ECMAScript [WhiteSpace] and [LineTerminator] code units below U+0100:
    TAB, LF, VT, FF, CR, SP and NBSP. *)
Definition is_whitespace (c : ascii) : bool :=
  in_range 9 13 c || (code_unit c =? 32)%N || (code_unit c =? 160)%N.

(** Characters below U+0100 that have a lowercase mapping: the letters
    A-Z and U+00C0..U+00DE without the multiplication sign U+00D7. *)
Definition has_lower (c : ascii) : bool :=
  in_range 65 90 c || (in_range 192 222 c && negb (code_unit c =? 215)%N).

Definition lower_char (c : ascii) : ascii :=
  if has_lower c then ascii_of_N (code_unit c + 32) else c.

(** [String.prototype.toLowerCase] *)
Fixpoint toLowerCase (s : string) : string :=
  match s with
  | EmptyString => EmptyString
  | String c s' => String (lower_char c) (toLowerCase s')
  end.

(** [String.prototype.trimStart] *)
Fixpoint trimStart (s : string) : string :=
  match s with
  | EmptyString => EmptyString
  | String c s' => if is_whitespace c then trimStart s' else s
  end.

(** [String.prototype.trimEnd] *)
Fixpoint trimEnd (s : string) : string :=
  match s with
  | EmptyString => EmptyString
  | String c s' =>
      match trimEnd s' with
      | EmptyString => if is_whitespace c then EmptyString else String c EmptyString
      | r => String c r
      end
  end.

(** [String.prototype.trim] *)
Definition trim (s : string) : string := trimEnd (trimStart s).

(** [s.replace(/c/g, r)] for a one-character pattern [c] and a
    replacement [r] without [$] patterns. *)
Fixpoint replaceAll (c : ascii) (r : string) (s : string) : string :=
  match s with
  | EmptyString => EmptyString
  | String d s' =>
      if Ascii.eqb d c then r +:+ replaceAll c r s'
      else String d (replaceAll c r s')
  end.

(** Every character of [s] satisfies [p]. *)
Fixpoint all_chars (p : ascii -> bool) (s : string) : bool :=
  match s with
  | EmptyString => true
  | String c s' => p c && all_chars p s'
  end.

(** [c] occurs in [s]. *)
Fixpoint occurs (c : ascii) (s : string) : bool :=
  match s with
  | EmptyString => false
  | String d s' => Ascii.eqb d c || occurs c s'
  end.

(** [/^[class]+$/.test(s)]: without the [m] flag [$] matches at the end
    of the input only. *)
Definition matches_plus (class : ascii -> bool) (s : string) : bool :=
  match s with
  | EmptyString => false
  | _ => all_chars class s
  end.

(** The first, respectively the last, character of [s] is whitespace. *)
Definition starts_ws (s : string) : bool :=
  match s with
  | EmptyString => false
  | String c _ => is_whitespace c
  end.

Fixpoint ends_ws (s : string) : bool :=
  match s with
  | EmptyString => false
  | String c EmptyString => is_whitespace c
  | String _ s' => ends_ws s'
  end.

(** Lowercasing of the letters A-Z only, for statements about ASCII case. *)
Definition ascii_lower_char (c : ascii) : ascii :=
  if in_range 65 90 c then ascii_of_N (code_unit c + 32) else c.

Fixpoint ascii_lowercase (s : string) : string :=
  match s with
  | EmptyString => EmptyString
  | String c s' => String (ascii_lower_char c) (ascii_lowercase s')
  end.

Definition equal_up_to_ascii_case (a b : string) : Prop :=
  ascii_lowercase a = ascii_lowercase b.

Fixpoint repeat (c : ascii) (n : nat) : string :=
  match n with
  | O => EmptyString
  | S n' => String c (repeat c n')
  end.

End JsString.

Import JsString.

(* ===================================================================== *)
(** ** src/types/errors.ts *)
(* ===================================================================== *)

Inductive ErrorCode : Set :=
| VALIDATION_ERROR | INVALID_USERNAME | INVALID_ROOM | INVALID_MESSAGE
| USERNAME_TAKEN | USER_NOT_FOUND | USER_NOT_IN_ROOM
| ROOM_NOT_FOUND | ROOM_FULL
| RATE_LIMIT_EXCEEDED
| INTERNAL_ERROR | CONNECTION_ERROR.

(** [AppError]: the message and the code; the status code and the timestamp
    play no role in the registry or in the protocol. *)
Record AppError : Set := mkAppError { err_message : string; err_code : ErrorCode }.

Definition ValidationError (message : string) : AppError :=
  mkAppError message VALIDATION_ERROR.

Definition UserError (message : string) (code : ErrorCode) : AppError :=
  mkAppError message code.

Inductive Result (T E : Type) : Type :=
| success (data : T)
| failure (error : E).
Arguments success {T E} data.
Arguments failure {T E} error.

(* ===================================================================== *)
(** ** src/validation/schemas.ts *)
(* ===================================================================== *)

Module Zod.

Inductive IssueCode : Set := too_small | too_big | invalid_string.

Record Issue : Set := mkIssue { issue_code : IssueCode; issue_message : string }.

(** The outcome of [schema.safeParse]. *)
Inductive SafeParse (T : Type) : Type :=
| parsed (data : T)
| issues (errs : list Issue).
Arguments parsed {T} data.
Arguments issues {T} errs.

Definition Check : Type := string -> list Issue.

Definition min (n : nat) (msg : string) : Check :=
  fun s => if Nat.ltb (String.length s) n then [mkIssue too_small msg] else [].

Definition max (n : nat) (msg : string) : Check :=
  fun s => if Nat.ltb n (String.length s) then [mkIssue too_big msg] else [].

Definition regex (class : ascii -> bool) (msg : string) : Check :=
  fun s => if matches_plus class s then [] else [mkIssue invalid_string msg].

(** [z.string().check1().check2()...]: every check runs, the issues are
    collected in the order of the checks. *)
Definition zstring (checks : list Check) (s : string) : SafeParse string :=
  match concat (map (fun chk => chk s) checks) with
  | [] => parsed s
  | errs => issues errs
  end.

(** [schema.transform(f)]: [f] runs on a valid value only. *)
Definition transform {A B : Type} (f : A -> B) (r : SafeParse A) : SafeParse B :=
  match r with
  | parsed a => parsed (f a)
  | issues errs => issues errs
  end.

(** [a.pipe(b)]: [b] parses the value [a] produced. *)
Definition pipe {A B : Type} (r : SafeParse A) (b : A -> SafeParse B) : SafeParse B :=
  match r with
  | parsed a => b a
  | issues errs => issues errs
  end.

End Zod.

Import Zod.

Definition is_alnum (c : ascii) : bool :=
  in_range 97 122 c || in_range 65 90 c || in_range 48 57 c.

(** [[a-zA-Z0-9_-]] *)
Definition username_class (c : ascii) : bool :=
  is_alnum c || Ascii.eqb c "_" || Ascii.eqb c "-".

(** [[a-zA-Z0-9_\- ]] *)
Definition room_class (c : ascii) : bool :=
  is_alnum c || Ascii.eqb c "_" || Ascii.eqb c "-" || Ascii.eqb c " ".

Definition usernameSchema (raw : string) : SafeParse string :=
  pipe (transform trim (zstring [] raw))
       (zstring
          [ min 2 "Username must be at least 2 characters";
            max 20 "Username must be at most 20 characters";
            regex username_class
              "Username can only contain letters, numbers, underscores, and hyphens" ]).

Definition roomSchema (raw : string) : SafeParse string :=
  transform trim
    (zstring
       [ min 1 "Room name is required";
         max 50 "Room name must be at most 50 characters";
         regex room_class
           "Room name can only contain letters, numbers, spaces, underscores, and hyphens" ]
       raw).

(** The double quote, U+0022. *)
Definition DQUOTE : ascii := "034"%char.

(** The four replacements of [messageSchema], in the order of the source. *)
Definition sanitize (val : string) : string :=
  replaceAll "'" "&#x27;"
    (replaceAll DQUOTE "&quot;"
       (replaceAll ">" "&gt;"
          (replaceAll "<" "&lt;" val))).

(** The entity that stands for a character in sanitized text, or the
    character itself. *)
Definition escape_char (c : ascii) : string :=
  if Ascii.eqb c "<" then "&lt;"
  else if Ascii.eqb c ">" then "&gt;"
  else if Ascii.eqb c DQUOTE then "&quot;"
  else if Ascii.eqb c "'" then "&#x27;"
  else String c EmptyString.

(** One pass over the text that replaces every character by [escape_char]. *)
Fixpoint escape_each (s : string) : string :=
  match s with
  | EmptyString => EmptyString
  | String c s' => escape_char c +:+ escape_each s'
  end.

Definition messageSchema (raw : string) : SafeParse string :=
  transform sanitize
    (transform trim
       (zstring
          [ min 1 "Message cannot be empty";
            max 1000 "Message must be at most 1000 characters" ]
          raw)).

Record JoinRoomPayload : Set := mkJoinRoomPayload { p_username : string; p_room : string }.

(** [z.object({ username: usernameSchema, room: roomSchema })]: both keys are
    parsed, the issues of [username] come first. *)
Definition joinRoomSchema (data : JoinRoomPayload) : SafeParse JoinRoomPayload :=
  match usernameSchema (p_username data), roomSchema (p_room data) with
  | parsed u, parsed r => parsed (mkJoinRoomPayload u r)
  | issues e1, issues e2 => issues (e1 ++ e2)%list
  | issues e1, parsed _ => issues e1
  | parsed _, issues e2 => issues e2
  end.

(** [validate(schema, data)]: the message of the first issue, or
    ['Validation failed'] when there is none. *)
Definition validate {D T : Type} (schema : D -> SafeParse T) (data : D)
  : Result T AppError :=
  match schema data with
  | parsed v => success v
  | issues errs =>
      failure (ValidationError
                 (match errs with
                  | firstError :: _ => issue_message firstError
                  | [] => "Validation failed"
                  end))
  end.

(* ===================================================================== *)
(** ** src/types/index.ts *)
(* ===================================================================== *)

Module User.
Record t : Set := mk { id : string; username : string; room : string }.
End User.

Record FormattedMessage : Set :=
  mkFormattedMessage { msg_username : string; msg_text : string; msg_time : string }.

(* ===================================================================== *)
(** ** A JavaScript [Map] with string keys

    Iteration follows insertion order; [set] on a key already present
    keeps its position and replaces the value. *)
(* ===================================================================== *)

Module JsMap.
Section Ops.
Context {V : Type}.

Fixpoint get (m : list (string * V)) (k : string) : option V :=
  match m with
  | [] => None
  | (k', v) :: m' => if decide (k' = k) then Some v else get m' k
  end.

Fixpoint set (m : list (string * V)) (k : string) (v : V) : list (string * V) :=
  match m with
  | [] => [(k, v)]
  | (k', v') :: m' =>
      if decide (k' = k) then (k, v) :: m' else (k', v') :: set m' k v
  end.

Fixpoint delete (m : list (string * V)) (k : string) : list (string * V) :=
  match m with
  | [] => []
  | (k', v') :: m' =>
      if decide (k' = k) then m' else (k', v') :: delete m' k
  end.

Definition values (m : list (string * V)) : list V := map snd m.

Definition keys (m : list (string * V)) : list string := map fst m.
End Ops.
End JsMap.

(** A JavaScript [Set] of strings, in insertion order. *)
Definition set_add (s : list string) (x : string) : list string :=
  if decide (x ∈ s) then s else (s ++ [x])%list.

(** The truthiness of a string: only the empty string is falsy. *)
Definition truthy (s : string) : bool := negb (String.eqb s EmptyString).

(* ===================================================================== *)
(** ** src/services/user.service.ts *)
(* ===================================================================== *)

(** [InMemoryUserStore]: the user table [users] (id -> user) and the name
    index [usernameIndex] (lowercase username -> id), which is never
    iterated. *)
Record InMemoryUserStore : Type := mkStore {
  users : list (string * User.t);
  usernameIndex : gmap string string
}.

Module Store.

Definition empty : InMemoryUserStore := mkStore [] ∅.

Definition add (store : InMemoryUserStore) (user : User.t) : InMemoryUserStore :=
  mkStore
    (JsMap.set (users store) (User.id user) user)
    (<[toLowerCase (User.username user) := User.id user]> (usernameIndex store)).

Definition remove (store : InMemoryUserStore) (id : string)
  : option User.t * InMemoryUserStore :=
  match JsMap.get (users store) id with
  | Some user =>
      (Some user,
       mkStore
         (JsMap.delete (users store) id)
         (delete (toLowerCase (User.username user)) (usernameIndex store)))
  | None => (None, store)
  end.

Definition findById (store : InMemoryUserStore) (id : string) : option User.t :=
  JsMap.get (users store) id.

Definition findByUsername (store : InMemoryUserStore) (username : string)
  : option User.t :=
  match usernameIndex store !! toLowerCase username with
  | Some id => if truthy id then JsMap.get (users store) id else None
  | None => None
  end.

Definition findByRoom (store : InMemoryUserStore) (room : string) : list User.t :=
  filter (fun user => toLowerCase (User.room user) = toLowerCase room)
         (JsMap.values (users store)).

Definition getAll (store : InMemoryUserStore) : list User.t :=
  JsMap.values (users store).

Definition clear (store : InMemoryUserStore) : InMemoryUserStore := mkStore [] ∅.

Definition count (store : InMemoryUserStore) : nat := length (users store).

End Store.

(** [UserService] over its store; the log lines are left out. *)
Module UserService.

Definition join (store : InMemoryUserStore) (id username room : string)
  : Result User.t AppError * InMemoryUserStore :=
  match Store.findByUsername store username with
  | Some existingUser =>
      (failure (UserError "Username is already taken" USERNAME_TAKEN), store)
  | None =>
      let user := User.mk id username room in
      (success user, Store.add store user)
  end.

Definition getById (store : InMemoryUserStore) (id : string) : option User.t :=
  Store.findById store id.

Definition getByUsername (store : InMemoryUserStore) (username : string)
  : option User.t :=
  Store.findByUsername store username.

Definition leave (store : InMemoryUserStore) (id : string)
  : option User.t * InMemoryUserStore :=
  Store.remove store id.

Definition getRoomUsers (store : InMemoryUserStore) (room : string) : list User.t :=
  Store.findByRoom store room.

Definition getTotalCount (store : InMemoryUserStore) : nat := Store.count store.

Definition getRoomCount (store : InMemoryUserStore) (room : string) : nat :=
  length (Store.findByRoom store room).

Definition isUsernameAvailable (store : InMemoryUserStore) (username : string) : bool :=
  match Store.findByUsername store username with
  | Some _ => false
  | None => true
  end.

Definition getActiveRooms (store : InMemoryUserStore) : list string :=
  foldl (fun rooms user => set_add rooms (User.room user)) [] (Store.getAll store).

End UserService.

(** The calls a client of the registry can make, and the state they lead to. *)
Inductive RegistryCall : Set :=
| CallJoin (id username room : string)
| CallLeave (id : string).

Definition run_call (store : InMemoryUserStore) (c : RegistryCall) : InMemoryUserStore :=
  match c with
  | CallJoin id username room => snd (UserService.join store id username room)
  | CallLeave id => snd (UserService.leave store id)
  end.

Definition run_calls (cs : list RegistryCall) : InMemoryUserStore :=
  foldl run_call Store.empty cs.

(** Some active user bears [username], compared case-insensitively. *)
Definition name_active (store : InMemoryUserStore) (username : string) : Prop :=
  ∃ user, user ∈ Store.getAll store ∧
          toLowerCase (User.username user) = toLowerCase username.

(** The name index agrees with the user table: the table is a map, every
    user is filed under its own non-empty id and indexed by its lowercase
    name, and every index entry points to a user bearing that name. *)
Record consistent (store : InMemoryUserStore) : Prop := mkConsistent {
  keys_nodup : NoDup (JsMap.keys (users store));
  users_indexed : ∀ k u, JsMap.get (users store) k = Some u →
    User.id u = k ∧ k ≠ EmptyString ∧
    usernameIndex store !! toLowerCase (User.username u) = Some k;
  index_sound : ∀ n k, usernameIndex store !! n = Some k →
    ∃ u, JsMap.get (users store) k = Some u ∧ toLowerCase (User.username u) = n
}.

(** The half of [consistent] that concerns the user table alone. *)
Record indexed (store : InMemoryUserStore) : Prop := mkIndexed {
  ix_nodup : NoDup (JsMap.keys (users store));
  ix_users : ∀ k u, JsMap.get (users store) k = Some u →
    User.id u = k ∧ k ≠ EmptyString ∧
    usernameIndex store !! toLowerCase (User.username u) = Some k
}.

(** The registry states reached from the empty registry by joins, from
    connections with a non-empty id, and leaves; a connection may join
    again while it is registered. *)
Inductive reachable : InMemoryUserStore → Prop :=
| r_empty : reachable Store.empty
| r_join store id username room :
    reachable store →
    id ≠ EmptyString →
    reachable (snd (UserService.join store id username room))
| r_leave store id :
    reachable store →
    reachable (snd (UserService.leave store id)).

(** The registry states in which every join came from a connection, with a
    non-empty id, that was not registered at that time. *)
Inductive reachable_unjoined : InMemoryUserStore → Prop :=
| ru_empty : reachable_unjoined Store.empty
| ru_join store id username room :
    reachable_unjoined store →
    id ≠ EmptyString →
    UserService.getById store id = None →
    reachable_unjoined (snd (UserService.join store id username room))
| ru_leave store id :
    reachable_unjoined store →
    reachable_unjoined (snd (UserService.leave store id)).

(* ===================================================================== *)
(** ** src/config/index.ts and src/services/message.service.ts *)
(* ===================================================================== *)

Module config.
Definition app_name : string := "XeroxChat".
Definition app_botName : string := "XeroxChat Bot".
End config.

(** The readings of the wall clock inside one handler call: the [k]-th
    [new Date()] and the [k]-th [moment().tz(timezone).format('h:mm a')]. *)
Record Clock : Set := mkClock { date : nat -> nat; rendered : nat -> string }.

Module MessageService.

Definition format (time username text : string) : FormattedMessage :=
  mkFormattedMessage username text time.

Definition botMessage (time text : string) : FormattedMessage :=
  format time config.app_botName text.

Definition welcome (time : string) : FormattedMessage :=
  botMessage time ("Welcome to " +:+ config.app_name +:+ "!").

Definition userJoined (time username : string) : FormattedMessage :=
  botMessage time (username +:+ " has joined the chat!").

Definition userLeft (time username : string) : FormattedMessage :=
  botMessage time (username +:+ " has left the chat!").

End MessageService.

(* ===================================================================== *)
(** ** src/types/socket.types.ts and src/socket/handlers.ts *)
(* ===================================================================== *)

(** Server -> client events ([ServerToClientEvents]). *)
Inductive ServerEvent : Set :=
| MESSAGE (message : FormattedMessage)
| ROOM_USERS (room : string) (roomUsers : list User.t)
| USERNAME_ERROR (error : string)
| USER_TYPING (username : string) (isTyping : bool)
| ERROR (code message : string).

(** The addressing of an emission: [socket.emit], [io.to(room).emit] and
    [socket.broadcast.to(room).emit]. *)
Inductive Target : Set :=
| ToSocket (socketId : string)
| ToRoom (room : string)
| ToRoomExcept (room : string) (socketId : string).

(** What a handler asks of the transport, in program order. *)
Inductive Effect : Set :=
| SocketJoin (socketId room : string)
| Emit (target : Target) (event : ServerEvent).

(** [SocketData] *)
Record SocketData : Set := mkSocketData {
  data_user : option User.t;
  joinedAt : option nat;
  lastActivity : option nat
}.

Record Socket : Set := mkSocket { socket_id : string; data : SocketData }.

Definition fresh_socket (id : string) : Socket :=
  mkSocket id (mkSocketData None None None).

(** The outcome of a handler: the registry, the socket and the effects. *)
Definition Outcome : Type := InMemoryUserStore * Socket * list Effect.

Definition emissions (effects : list Effect) : list (Target * ServerEvent) :=
  omap (fun e => match e with Emit t ev => Some (t, ev) | SocketJoin _ _ => None end)
       effects.

Definition broadcastRoomUsers (store : InMemoryUserStore) (room : string) : list Effect :=
  let users := UserService.getRoomUsers store room in
  [Emit (ToRoom room) (ROOM_USERS room users)].

Definition handleJoinRoom (clock : Clock) (store : InMemoryUserStore)
    (socket : Socket) (payload : JoinRoomPayload) : Outcome :=
  match validate joinRoomSchema payload with
  | failure error =>
      (store, socket,
       [Emit (ToSocket (socket_id socket)) (USERNAME_ERROR (err_message error))])
  | success validated =>
      let username := p_username validated in
      let room := p_room validated in
      match UserService.join store (socket_id socket) username room with
      | (failure error, store') =>
          (store', socket,
           [Emit (ToSocket (socket_id socket)) (USERNAME_ERROR (err_message error))])
      | (success user, store') =>
          let socket' :=
            mkSocket (socket_id socket)
              (mkSocketData (Some user) (Some (date clock 0))
                            (lastActivity (data socket))) in
          (store', socket',
           ([ SocketJoin (socket_id socket) (User.room user);
             Emit (ToSocket (socket_id socket))
                  (MESSAGE (MessageService.welcome (rendered clock 0)));
             Emit (ToRoomExcept (User.room user) (socket_id socket))
                  (MESSAGE (MessageService.userJoined (rendered clock 1)
                                                      (User.username user))) ]
            ++ broadcastRoomUsers store' (User.room user))%list)
      end
  end.

(** [socket.data.user ?? userService.getById(socket.id)] *)
Definition resolve_user (store : InMemoryUserStore) (socket : Socket) : option User.t :=
  match data_user (data socket) with
  | Some user => Some user
  | None => UserService.getById store (socket_id socket)
  end.

Definition handleChatMessage (clock : Clock) (store : InMemoryUserStore)
    (socket : Socket) (msg : string) : Outcome :=
  match resolve_user store socket with
  | None =>
      (store, socket,
       [Emit (ToSocket (socket_id socket))
             (ERROR "USER_NOT_FOUND" "You must join a room first")])
  | Some user =>
      match validate messageSchema msg with
      | failure error =>
          (store, socket,
           [Emit (ToSocket (socket_id socket))
                 (ERROR "INVALID_MESSAGE" (err_message error))])
      | success sanitizedMessage =>
          let socket' :=
            mkSocket (socket_id socket)
              (mkSocketData (data_user (data socket)) (joinedAt (data socket))
                            (Some (date clock 0))) in
          (store, socket',
           [Emit (ToRoom (User.room user))
                 (MESSAGE (MessageService.format (rendered clock 0)
                             (User.username user) sanitizedMessage))])
      end
  end.

Definition handleTyping (store : InMemoryUserStore) (socket : Socket)
    (isTyping : bool) : Outcome :=
  match resolve_user store socket with
  | None => (store, socket, [])
  | Some user =>
      (store, socket,
       [Emit (ToRoomExcept (User.room user) (socket_id socket))
             (USER_TYPING (User.username user) isTyping)])
  end.

Definition handleDisconnect (clock : Clock) (store : InMemoryUserStore)
    (socket : Socket) : Outcome :=
  match UserService.leave store (socket_id socket) with
  | (Some user, store') =>
      (store', socket,
       Emit (ToRoom (User.room user))
            (MESSAGE (MessageService.userLeft (rendered clock 0) (User.username user)))
       :: broadcastRoomUsers store' (User.room user))
  | (None, store') => (store', socket, [])
  end.

(** [registerSocketHandlers]: the events of the connected sockets, routed to
    the handlers above. A socket gets its empty [SocketData] when it
    connects, and is gone after its disconnect; events that name no
    connected socket do not occur and are modelled as no-ops. No handler is
    registered for [leaveRoom]. *)
Inductive ClientEvent : Set :=
| CONNECTION (socketId : string)
| JOIN_ROOM (socketId : string) (payload : JoinRoomPayload)
| CHAT_MESSAGE (socketId : string) (msg : string)
| TYPING (socketId : string) (isTyping : bool)
| DISCONNECT (socketId : string).

Record Server : Type := mkServer {
  registry : InMemoryUserStore;
  sockets : gmap string SocketData
}.

Definition initial_server : Server := mkServer Store.empty ∅.

Definition with_socket (srv : Server) (socketId : string)
    (handler : Socket → Outcome) : Server * list Effect :=
  match sockets srv !! socketId with
  | None => (srv, [])
  | Some d =>
      let '(store', socket', effects) := handler (mkSocket socketId d) in
      (mkServer store' (<[socketId := data socket']> (sockets srv)), effects)
  end.

Definition dispatch (clock : Clock) (srv : Server) (ev : ClientEvent)
  : Server * list Effect :=
  match ev with
  | CONNECTION socketId =>
      match sockets srv !! socketId with
      | Some _ => (srv, [])
      | None =>
          (mkServer (registry srv)
             (<[socketId := mkSocketData None None None]> (sockets srv)), [])
      end
  | JOIN_ROOM socketId payload =>
      with_socket srv socketId
        (fun socket => handleJoinRoom clock (registry srv) socket payload)
  | CHAT_MESSAGE socketId msg =>
      with_socket srv socketId
        (fun socket => handleChatMessage clock (registry srv) socket msg)
  | TYPING socketId isTyping =>
      with_socket srv socketId
        (fun socket => handleTyping (registry srv) socket isTyping)
  | DISCONNECT socketId =>
      match sockets srv !! socketId with
      | None => (srv, [])
      | Some d =>
          let '(store', _, effects) :=
            handleDisconnect clock (registry srv) (mkSocket socketId d) in
          (mkServer store' (delete socketId (sockets srv)), effects)
      end
  end.

Inductive server_reachable : Server → Prop :=
| sr_initial : server_reachable initial_server
| sr_dispatch clock srv ev :
    server_reachable srv → server_reachable (fst (dispatch clock srv ev)).

(** Only connected sockets that carry their user in [socket.data.user] are
    registered. *)
Record server_inv (srv : Server) : Prop := mkServerInv {
  inv_nodup : NoDup (JsMap.keys (users (registry srv)));
  inv_registered : ∀ socketId u,
    UserService.getById (registry srv) socketId = Some u →
    ∃ d, sockets srv !! socketId = Some d ∧ data_user d = Some u
}.

Definition sample_clock : Clock := mkClock (fun k => k) (fun _ => "10:00 am").

(* ===================================================================== *)
(** * Properties *)
(* ===================================================================== *)

(** ** The repository's own tests, replayed on the model *)

Section RepositoryTests.

Example test_join_adds_user :
  fst (UserService.join Store.empty "socket-1" "alice" "general") =
    success (User.mk "socket-1" "alice" "general").
Proof. reflexivity. Qed.

Example test_join_rejects_duplicate :
  fst (UserService.join (run_calls [CallJoin "socket-1" "alice" "general"])
         "socket-2" "Alice" "general") =
    failure (UserError "Username is already taken" USERNAME_TAKEN).
Proof. reflexivity. Qed.

Example test_leave_removes_user :
  let store := run_calls [CallJoin "socket-1" "alice" "general"] in
  fst (UserService.leave store "socket-1") = Some (User.mk "socket-1" "alice" "general") ∧
  UserService.getById (snd (UserService.leave store "socket-1")) "socket-1" = None ∧
  fst (UserService.leave store "non-existent") = None.
Proof. repeat split; reflexivity. Qed.

Example test_getRoomUsers :
  let store := run_calls [CallJoin "socket-1" "alice" "general";
                          CallJoin "socket-2" "bob" "general";
                          CallJoin "socket-3" "charlie" "random"] in
  map User.username (UserService.getRoomUsers store "general") = ["alice"; "bob"] ∧
  UserService.getRoomUsers store "empty-room" = [].
Proof. split; reflexivity. Qed.

Example test_isUsernameAvailable :
  let store := run_calls [CallJoin "socket-1" "alice" "general"] in
  UserService.isUsernameAvailable Store.empty "alice" = true ∧
  UserService.isUsernameAvailable store "alice" = false ∧
  UserService.isUsernameAvailable store "ALICE" = false.
Proof. repeat split; reflexivity. Qed.

Example test_getActiveRooms :
  UserService.getActiveRooms
    (run_calls [CallJoin "socket-1" "alice" "general";
                CallJoin "socket-2" "bob" "random"]) = ["general"; "random"].
Proof. reflexivity. Qed.

Example test_usernameSchema :
  validate usernameSchema "Bob_123" = success "Bob_123" ∧
  validate usernameSchema "  alice  " = success "alice" ∧
  validate usernameSchema "a" =
    failure (ValidationError "Username must be at least 2 characters") ∧
  validate usernameSchema (repeat "a" 21) =
    failure (ValidationError "Username must be at most 20 characters") ∧
  validate usernameSchema "user name" =
    failure (ValidationError
      "Username can only contain letters, numbers, underscores, and hyphens").
Proof. repeat split; reflexivity. Qed.

Example test_roomSchema :
  validate roomSchema "Room 123" = success "Room 123" ∧
  validate roomSchema "my-room_name" = success "my-room_name" ∧
  validate roomSchema EmptyString = failure (ValidationError "Room name is required") ∧
  validate roomSchema "room@name" =
    failure (ValidationError
      "Room name can only contain letters, numbers, spaces, underscores, and hyphens").
Proof. repeat split; reflexivity. Qed.

Example test_messageSchema :
  validate messageSchema "Hello!" = success "Hello!" ∧
  validate messageSchema "A" = success "A" ∧
  validate messageSchema EmptyString =
    failure (ValidationError "Message cannot be empty") ∧
  validate messageSchema (repeat "a" 1001) =
    failure (ValidationError "Message must be at most 1000 characters").
Proof. repeat split; vm_compute; reflexivity. Qed.

Example test_handleJoinRoom_invalid :
  snd (handleJoinRoom sample_clock Store.empty (fresh_socket "socket-123")
         (mkJoinRoomPayload "a" "general")) =
    [Emit (ToSocket "socket-123")
          (USERNAME_ERROR "Username must be at least 2 characters")] ∧
  snd (handleJoinRoom sample_clock Store.empty (fresh_socket "socket-123")
         (mkJoinRoomPayload "alice" EmptyString)) =
    [Emit (ToSocket "socket-123") (USERNAME_ERROR "Room name is required")].
Proof. split; reflexivity. Qed.

End RepositoryTests.

(** ** Strings *)

Section StringFacts.

#[local] Arguments String.append !s1 s2 / : simpl nomatch.

Lemma append_empty_r (s : string) : s +:+ EmptyString = s.
Proof. induction s as [|c s IH]; simpl; [reflexivity | now rewrite IH]. Qed.

Lemma occurs_append (c : ascii) (a b : string) :
  occurs c (a +:+ b) = occurs c a || occurs c b.
Proof.
  induction a as [|d a IH]; simpl; [reflexivity|].
  rewrite IH. now rewrite orb_assoc.
Qed.

(** One replacement pass removes its pattern, when the replacement does
    not contain it. *)
Lemma replaceAll_removes (c : ascii) (r s : string) :
  occurs c r = false → occurs c (replaceAll c r s) = false.
Proof.
  intros Hr. induction s as [|d s IH]; simpl; [reflexivity|].
  destruct (Ascii.eqb d c) eqn:E.
  - rewrite occurs_append, Hr, IH. reflexivity.
  - simpl. rewrite E, IH. reflexivity.
Qed.

(** A pass does not bring back a character that neither the input nor
    the replacement contains. *)
Lemma replaceAll_keeps_absent (d c : ascii) (r s : string) :
  occurs d s = false → occurs d r = false →
  occurs d (replaceAll c r s) = false.
Proof.
  intros Hs Hr. induction s as [|e s IH]; simpl in *; [reflexivity|].
  apply orb_false_iff in Hs as [He Hs].
  destruct (Ascii.eqb e c).
  - rewrite occurs_append, Hr, (IH Hs). reflexivity.
  - simpl. rewrite He, (IH Hs). reflexivity.
Qed.

(** A pass whose pattern does not occur changes nothing. *)
Lemma replaceAll_absent (c : ascii) (r s : string) :
  occurs c s = false → replaceAll c r s = s.
Proof.
  induction s as [|d s IH]; simpl; [reflexivity|].
  intros H. apply orb_false_iff in H as [Hd Hs].
  rewrite Hd, (IH Hs). reflexivity.
Qed.

Lemma replaceAll_nonempty (c : ascii) (r s : string) :
  r ≠ EmptyString → s ≠ EmptyString → replaceAll c r s ≠ EmptyString.
Proof.
  intros Hr Hs. destruct s as [|d s]; [congruence|]. simpl.
  destruct (Ascii.eqb d c); [|discriminate].
  destruct r; [congruence | discriminate].
Qed.

Lemma ends_ws_cons (c : ascii) (s : string) :
  s ≠ EmptyString → ends_ws (String c s) = ends_ws s.
Proof. destruct s; [congruence | reflexivity]. Qed.

Lemma ends_ws_append (a b : string) : b ≠ EmptyString → ends_ws (a +:+ b) = ends_ws b.
Proof.
  intros Hb. induction a as [|c a IH]; [reflexivity|].
  simpl String.append. rewrite ends_ws_cons; [exact IH|].
  destruct a; simpl; [exact Hb | discriminate].
Qed.

Lemma starts_ws_append (a b : string) : a ≠ EmptyString → starts_ws (a +:+ b) = starts_ws a.
Proof. destruct a; [congruence | reflexivity]. Qed.

Lemma trimStart_fixed (s : string) : starts_ws s = false → trimStart s = s.
Proof. destruct s as [|c s]; simpl; [reflexivity|]. now intros ->. Qed.

Lemma trimEnd_fixed (s : string) : ends_ws s = false → trimEnd s = s.
Proof.
  induction s as [|c s IH]; [reflexivity|].
  destruct s as [|d s].
  - simpl. now intros ->.
  - intros H. change (ends_ws (String d s) = false) in H.
    specialize (IH H). simpl trimEnd at 1.
    change (match trimEnd (String d s) with
            | EmptyString => if is_whitespace c then EmptyString else String c EmptyString
            | String a r => String c (String a r)
            end = String c (String d s)).
    rewrite IH. reflexivity.
Qed.

Lemma trim_fixed (s : string) :
  starts_ws s = false → ends_ws s = false → trim s = s.
Proof.
  intros H1 H2. unfold trim. rewrite (trimStart_fixed s H1). now apply trimEnd_fixed.
Qed.

Lemma starts_ws_trimStart (s : string) : starts_ws (trimStart s) = false.
Proof.
  induction s as [|c s IH]; [reflexivity|]. simpl.
  destruct (is_whitespace c) eqn:E; [exact IH | simpl; exact E].
Qed.

Lemma trimEnd_cases (c : ascii) (s : string) :
  trimEnd (String c s) = EmptyString ∨ ∃ r, trimEnd (String c s) = String c r.
Proof.
  simpl. destruct (trimEnd s); [|right; eauto].
  destruct (is_whitespace c); [left | right]; eauto.
Qed.

Lemma starts_ws_trimEnd (s : string) :
  starts_ws s = false → starts_ws (trimEnd s) = false.
Proof.
  destruct s as [|c s]; [reflexivity|]. intros H.
  destruct (trimEnd_cases c s) as [-> | [r ->]]; [reflexivity | exact H].
Qed.

Lemma ends_ws_trimEnd (s : string) : ends_ws (trimEnd s) = false.
Proof.
  induction s as [|c s IH]; [reflexivity|]. simpl.
  destruct (trimEnd s) as [|d r] eqn:E.
  - destruct (is_whitespace c) eqn:W; simpl; [reflexivity | exact W].
  - rewrite ends_ws_cons by discriminate. exact IH.
Qed.

(** The result of [trim] neither starts nor ends with whitespace. *)
Lemma trim_trimmed (s : string) :
  starts_ws (trim s) = false ∧ ends_ws (trim s) = false.
Proof.
  unfold trim. split.
  - apply starts_ws_trimEnd, starts_ws_trimStart.
  - apply ends_ws_trimEnd.
Qed.

Lemma trim_idempotent (s : string) : trim (trim s) = trim s.
Proof. destruct (trim_trimmed s). now apply trim_fixed. Qed.

Lemma length_trimStart (s : string) : (String.length (trimStart s) ≤ String.length s)%nat.
Proof.
  induction s as [|c s IH]; simpl; [lia|].
  destruct (is_whitespace c); simpl; lia.
Qed.

Lemma length_trimEnd (s : string) : (String.length (trimEnd s) ≤ String.length s)%nat.
Proof.
  induction s as [|c s IH]; simpl; [lia|].
  destruct (trimEnd s); [destruct (is_whitespace c)|]; simpl in *; lia.
Qed.

Lemma length_trim (s : string) : (String.length (trim s) ≤ String.length s)%nat.
Proof.
  unfold trim. pose proof (length_trimStart s).
  pose proof (length_trimEnd (trimStart s)). lia.
Qed.

Lemma all_chars_trimStart (p : ascii → bool) (s : string) :
  all_chars p s = true → all_chars p (trimStart s) = true.
Proof.
  induction s as [|c s IH]; simpl; [reflexivity|].
  intros H. destruct (is_whitespace c); [|exact H].
  apply andb_true_iff in H as [_ H]. now apply IH.
Qed.

Lemma all_chars_trimEnd (p : ascii → bool) (s : string) :
  all_chars p s = true → all_chars p (trimEnd s) = true.
Proof.
  induction s as [|c s IH]; simpl; [reflexivity|].
  intros H. apply andb_true_iff in H as [Hc H]. specialize (IH H).
  destruct (trimEnd s).
  - destruct (is_whitespace c); simpl; [reflexivity | now rewrite Hc].
  - simpl in *. now rewrite Hc, IH.
Qed.

Lemma all_chars_trim (p : ascii → bool) (s : string) :
  all_chars p s = true → all_chars p (trim s) = true.
Proof. intros H. now apply all_chars_trimEnd, all_chars_trimStart. Qed.

(** A string of characters none of which is whitespace is its own trim. *)
Lemma trim_no_whitespace (p : ascii → bool) (s : string) :
  (∀ c, p c = true → is_whitespace c = false) →
  all_chars p s = true → trim s = s.
Proof.
  intros Hp H. apply trim_fixed.
  - destruct s as [|c s]; [reflexivity|]. simpl in *.
    apply andb_true_iff in H as [Hc _]. now apply Hp.
  - induction s as [|c s IH]; [reflexivity|].
    simpl in H. apply andb_true_iff in H as [Hc H].
    destruct s as [|d s]; [simpl; now apply Hp|].
    rewrite ends_ws_cons by discriminate. now apply IH.
Qed.

(** A replacement pass keeps a string trimmed, when the replacement is
    itself non-empty and trimmed. *)
Lemma replaceAll_starts (c : ascii) (r s : string) :
  r ≠ EmptyString → starts_ws r = false →
  starts_ws s = false → starts_ws (replaceAll c r s) = false.
Proof.
  intros Hr Hrs H. destruct s as [|d s]; [reflexivity|]. simpl in *.
  destruct (Ascii.eqb d c); [|exact H].
  now rewrite starts_ws_append.
Qed.

Lemma replaceAll_ends (c : ascii) (r s : string) :
  r ≠ EmptyString → ends_ws r = false →
  ends_ws s = false → ends_ws (replaceAll c r s) = false.
Proof.
  intros Hr Hre. induction s as [|d s IH]; [reflexivity|].
  intros H. destruct s as [|e s].
  - simpl in *. destruct (Ascii.eqb d c); [|exact H].
    now rewrite append_empty_r.
  - rewrite ends_ws_cons in H by discriminate. specialize (IH H).
    assert (Hne : replaceAll c r (String e s) ≠ EmptyString)
      by (apply replaceAll_nonempty; [exact Hr | discriminate]).
    change (replaceAll c r (String d (String e s)))
      with (if Ascii.eqb d c then r +:+ replaceAll c r (String e s)
            else String d (replaceAll c r (String e s))).
    destruct (Ascii.eqb d c).
    + now rewrite ends_ws_append.
    + now rewrite ends_ws_cons.
Qed.

Lemma append_assoc (a b c : string) : (a +:+ b) +:+ c = a +:+ (b +:+ c).
Proof. induction a as [|d a IH]; simpl; [reflexivity | now rewrite IH]. Qed.

Lemma replaceAll_append (c : ascii) (r a b : string) :
  replaceAll c r (a +:+ b) = replaceAll c r a +:+ replaceAll c r b.
Proof.
  induction a as [|d a IH]; simpl; [reflexivity|].
  destruct (Ascii.eqb d c); simpl; rewrite IH; [|reflexivity].
  now rewrite append_assoc.
Qed.

Lemma length_repeat (c : ascii) (n : nat) : String.length (repeat c n) = n.
Proof. induction n; simpl; congruence. Qed.

End StringFacts.

(** ** Validation *)

Section ValidationFacts.

#[local] Arguments String.append !s1 s2 / : simpl nomatch.

Lemma validate_success {D T : Type} (schema : D → SafeParse T) (d : D) (v : T) :
  validate schema d = success v ↔ schema d = parsed v.
Proof.
  unfold validate. destruct (schema d); split; intros H; congruence.
Qed.

Lemma usernameSchema_parsed (raw v : string) :
  usernameSchema raw = parsed v ↔
  v = trim raw ∧ (2 ≤ String.length v ≤ 20)%nat ∧
  matches_plus username_class v = true.
Proof.
  unfold usernameSchema, zstring, min, max, regex. simpl.
  destruct (Nat.ltb_spec (String.length (trim raw)) 2);
    destruct (Nat.ltb_spec 20 (String.length (trim raw)));
    destruct (matches_plus username_class (trim raw)) eqn:E; simpl;
    split; try discriminate; try (intros (-> & ? & ?); (lia || congruence)).
  intros [= <-]. repeat split; (lia || assumption).
Qed.

Lemma roomSchema_parsed (raw v : string) :
  roomSchema raw = parsed v ↔
  v = trim raw ∧ (1 ≤ String.length raw ≤ 50)%nat ∧
  matches_plus room_class raw = true.
Proof.
  unfold roomSchema, zstring, min, max, regex. simpl.
  destruct (Nat.ltb_spec (String.length raw) 1);
    destruct (Nat.ltb_spec 50 (String.length raw));
    destruct (matches_plus room_class raw) eqn:E; simpl;
    split; try discriminate; try (intros (-> & ? & ?); (lia || congruence)).
  intros [= <-]. repeat split; (lia || assumption).
Qed.

Lemma messageSchema_parsed (raw v : string) :
  messageSchema raw = parsed v ↔
  v = sanitize (trim raw) ∧ (1 ≤ String.length raw ≤ 1000)%nat.
Proof.
  unfold messageSchema, zstring, min, max. simpl.
  destruct (Nat.ltb_spec (String.length raw) 1);
    destruct (Nat.ltb_spec 1000 (String.length raw)); simpl;
    split; try discriminate; try (intros (-> & ?); lia).
  - intros [= <-]. split; [reflexivity | lia].
  - intros (-> & ?). reflexivity.
Qed.

Lemma username_class_not_whitespace (c : ascii) :
  username_class c = true → is_whitespace c = false.
Proof.
  destruct c as [[] [] [] [] [] [] [] []]; vm_compute; intros; congruence.
Qed.

Lemma matches_plus_all (p : ascii → bool) (s : string) :
  matches_plus p s = true ↔ s ≠ EmptyString ∧ all_chars p s = true.
Proof.
  destruct s; simpl; split.
  - discriminate.
  - intros [? _]. congruence.
  - intros H. split; [discriminate | exact H].
  - intros [_ H]. exact H.
Qed.

Lemma length_zero_empty (s : string) : String.length s = 0 ↔ s = EmptyString.
Proof. destruct s; simpl; split; (reflexivity || discriminate). Qed.

(** No pass of [sanitize] leaves or brings back one of the four
    characters. *)
Lemma sanitize_clean (val : string) :
  occurs "<" (sanitize val) = false ∧ occurs ">" (sanitize val) = false ∧
  occurs DQUOTE (sanitize val) = false ∧ occurs "'" (sanitize val) = false.
Proof.
  unfold sanitize. repeat split.
  - do 3 (apply replaceAll_keeps_absent; [|reflexivity]).
    now apply replaceAll_removes.
  - do 2 (apply replaceAll_keeps_absent; [|reflexivity]).
    now apply replaceAll_removes.
  - apply replaceAll_keeps_absent; [|reflexivity].
    now apply replaceAll_removes.
  - now apply replaceAll_removes.
Qed.

Lemma sanitize_fixed (s : string) :
  occurs "<" s = false → occurs ">" s = false →
  occurs DQUOTE s = false → occurs "'" s = false →
  sanitize s = s.
Proof.
  intros H1 H2 H3 H4. unfold sanitize.
  rewrite (replaceAll_absent "<" _ s H1), (replaceAll_absent ">" _ s H2),
    (replaceAll_absent DQUOTE _ s H3), (replaceAll_absent "'" _ s H4).
  reflexivity.
Qed.

Lemma sanitize_trimmed (s : string) :
  starts_ws s = false → ends_ws s = false →
  starts_ws (sanitize s) = false ∧ ends_ws (sanitize s) = false.
Proof.
  intros H1 H2. unfold sanitize. split.
  - repeat (apply replaceAll_starts; [discriminate | reflexivity |]). exact H1.
  - repeat (apply replaceAll_ends; [discriminate | reflexivity |]). exact H2.
Qed.

(** The four passes of [sanitize] amount to one pass that replaces each
    of the four characters by its entity: no pass touches what an earlier
    one has written. *)
Lemma sanitize_cons (c : ascii) (s : string) :
  sanitize (String c s) = escape_char c +:+ sanitize s.
Proof.
  unfold sanitize, escape_char.
  change (replaceAll "<" "&lt;" (String c s))
    with (if Ascii.eqb c "<" then "&lt;" +:+ replaceAll "<" "&lt;" s
          else String c (replaceAll "<" "&lt;" s)).
  destruct (Ascii.eqb c "<") eqn:E1.
  { now rewrite !replaceAll_append. }
  set (s1 := replaceAll "<" "&lt;" s).
  change (replaceAll ">" "&gt;" (String c s1))
    with (if Ascii.eqb c ">" then "&gt;" +:+ replaceAll ">" "&gt;" s1
          else String c (replaceAll ">" "&gt;" s1)).
  destruct (Ascii.eqb c ">") eqn:E2.
  { now rewrite !replaceAll_append. }
  set (s2 := replaceAll ">" "&gt;" s1).
  change (replaceAll DQUOTE "&quot;" (String c s2))
    with (if Ascii.eqb c DQUOTE then "&quot;" +:+ replaceAll DQUOTE "&quot;" s2
          else String c (replaceAll DQUOTE "&quot;" s2)).
  destruct (Ascii.eqb c DQUOTE) eqn:E3.
  { now rewrite !replaceAll_append. }
  set (s3 := replaceAll DQUOTE "&quot;" s2).
  change (replaceAll "'" "&#x27;" (String c s3))
    with (if Ascii.eqb c "'" then "&#x27;" +:+ replaceAll "'" "&#x27;" s3
          else String c (replaceAll "'" "&#x27;" s3)).
  destruct (Ascii.eqb c "'") eqn:E4; reflexivity.
Qed.

Lemma sanitize_escape_each (s : string) : sanitize s = escape_each s.
Proof.
  induction s as [|c s IH]; [reflexivity|].
  rewrite sanitize_cons. simpl. now rewrite IH.
Qed.

(** A raw string of whitespace only passes the checks of [roomSchema] and
    of [messageSchema] whenever its own length does, and is then trimmed
    to the empty string. *)
Lemma roomSchema_blank (raw : string) :
  (1 ≤ String.length raw ≤ 50)%nat → all_chars room_class raw = true →
  trim raw = EmptyString →
  validate roomSchema raw = success EmptyString.
Proof.
  intros Hlen Hall Htrim. apply validate_success, roomSchema_parsed.
  split; [now rewrite Htrim|]. split; [exact Hlen|].
  apply matches_plus_all. split; [|exact Hall].
  intros ->. simpl in Hlen. lia.
Qed.

Lemma messageSchema_blank (raw : string) :
  (1 ≤ String.length raw ≤ 1000)%nat → trim raw = EmptyString →
  validate messageSchema raw = success EmptyString.
Proof.
  intros Hlen Htrim. apply validate_success, messageSchema_parsed.
  split; [now rewrite Htrim | exact Hlen].
Qed.

(** What [validateMessage] returns is a fixed point of both
    transformations of [messageSchema]. *)
Lemma sanitize_trim_fixed (raw : string) :
  sanitize (trim (sanitize (trim raw))) = sanitize (trim raw).
Proof.
  destruct (trim_trimmed raw) as [H1 H2].
  destruct (sanitize_trimmed _ H1 H2) as [H3 H4].
  rewrite (trim_fixed _ H3 H4).
  destruct (sanitize_clean (trim raw)) as (? & ? & ? & ?).
  now apply sanitize_fixed.
Qed.

End ValidationFacts.

(** C3: [roomSchema] applies [min(1)] to the raw string and trims
    afterwards, so the room made of one space passes every check and is
    returned as the empty room; [handleJoinRoom] then registers an identity
    whose room is empty. *)
Theorem validateRoom_whitespace_accepted :
  trim " " = EmptyString ∧
  validate roomSchema " " = success EmptyString ∧
  (∃ store socket effects user,
     handleJoinRoom sample_clock Store.empty (fresh_socket "s1")
       (mkJoinRoomPayload "alice" " ") = (store, socket, effects) ∧
     UserService.getById store "s1" = Some user ∧
     User.room user = EmptyString).
Proof.
  split; [reflexivity|]. split; [reflexivity|].
  eexists _, _, _, _. split; [reflexivity|]. split; reflexivity.
Qed.

(** C4: [messageSchema] applies [min(1)] to the raw string and trims
    afterwards, so a message of whitespace only is accepted as the empty
    sanitized message, which [handleChatMessage] broadcasts to the room. *)
Theorem validateMessage_whitespace_accepted :
  trim "   " = EmptyString ∧
  validate messageSchema "   " = success EmptyString ∧
  (let user := User.mk "s1" "alice" "general" in
   let socket := mkSocket "s1" (mkSocketData (Some user) (Some 0) None) in
   let store := Store.add Store.empty user in
   emissions (snd (handleChatMessage sample_clock store socket "   ")) =
   [(ToRoom "general",
     MESSAGE (mkFormattedMessage "alice" EmptyString "10:00 am"))]).
Proof. repeat split; reflexivity. Qed.

(** C5: the text returned by [validateMessage] contains none of the
    characters [<], [>], double quote and single quote; the script example
    is accepted and its output has no [<] and no [>]. *)
Theorem validateMessage_escapes :
  (∀ raw text : string,
     validate messageSchema raw = success text →
     text = escape_each (trim raw) ∧
     occurs "<" text = false ∧ occurs ">" text = false ∧
     occurs DQUOTE text = false ∧ occurs "'" text = false) ∧
  (∃ text,
     validate messageSchema "<script>alert(1)</script>" = success text ∧
     occurs "<" text = false ∧ occurs ">" text = false).
Proof.
  split.
  - intros raw text H. apply validate_success, messageSchema_parsed in H as [-> _].
    split; [apply sanitize_escape_each | apply sanitize_clean].
  - exists "&lt;script&gt;alert(1)&lt;/script&gt;". repeat split; reflexivity.
Qed.

Lemma validateMessage_escapes_witness :
  validate messageSchema "<b>'hi'</b>" = success "&lt;b&gt;&#x27;hi&#x27;&lt;/b&gt;" ∧
  ("&lt;b&gt;&#x27;hi&#x27;&lt;/b&gt;" = escape_each (trim "<b>'hi'</b>") ∧
   occurs "<" "&lt;b&gt;&#x27;hi&#x27;&lt;/b&gt;" = false ∧
   occurs ">" "&lt;b&gt;&#x27;hi&#x27;&lt;/b&gt;" = false ∧
   occurs DQUOTE "&lt;b&gt;&#x27;hi&#x27;&lt;/b&gt;" = false ∧
   occurs "'" "&lt;b&gt;&#x27;hi&#x27;&lt;/b&gt;" = false).
Proof.
  split; [reflexivity|].
  apply (proj1 validateMessage_escapes "<b>'hi'</b>"). reflexivity.
Defined.

(** C6, as stated, fails: 251 characters [<] are accepted and escaped to
    1004 characters, which [validateMessage] then rejects as too long. *)
Lemma validateMessage_output_rejected :
  validate messageSchema (repeat "<" 251) = success (sanitize (repeat "<" 251)) ∧
  validate messageSchema (sanitize (repeat "<" 251)) =
    failure (ValidationError "Message must be at most 1000 characters").
Proof. split; vm_compute; reflexivity. Qed.

(** C6, amended: [validateName] returns its own output unchanged;
    [validateRoom] does so for every non-empty output, and [validateMessage]
    for every non-empty output of at most 1000 characters. *)
Theorem validators_idempotent_on_output :
  (∀ raw v : string,
     validate usernameSchema raw = success v →
     validate usernameSchema v = success v) ∧
  (∀ raw v : string,
     validate roomSchema raw = success v → v ≠ EmptyString →
     validate roomSchema v = success v) ∧
  (∀ raw v : string,
     validate messageSchema raw = success v → v ≠ EmptyString →
     (String.length v ≤ 1000)%nat →
     validate messageSchema v = success v).
Proof.
  split; [|split].
  - intros raw v H. apply validate_success, usernameSchema_parsed in H as (Hv & Hlen & Hm).
    apply validate_success, usernameSchema_parsed.
    assert (Ht : trim v = v).
    { apply matches_plus_all in Hm as [_ Hall].
      exact (trim_no_whitespace _ _ username_class_not_whitespace Hall). }
    rewrite Ht. auto.
  - intros raw v H Hne. apply validate_success, roomSchema_parsed in H as (Hv & Hlen & Hm).
    apply validate_success, roomSchema_parsed.
    pose proof (length_trim raw) as Hl. rewrite <- Hv in Hl.
    split; [subst v; symmetry; apply trim_idempotent|].
    split.
    + destruct v; [congruence|]. simpl in *. lia.
    + apply matches_plus_all. split; [exact Hne|].
      apply matches_plus_all in Hm as [_ Hall]. subst v. now apply all_chars_trim.
  - intros raw v H Hne Hlen. apply validate_success, messageSchema_parsed in H as (Hv & _).
    apply validate_success, messageSchema_parsed.
    split; [subst v; symmetry; apply sanitize_trim_fixed|].
    destruct v; [congruence|]. simpl in *. lia.
Qed.

Lemma validators_idempotent_on_output_witness :
  (validate usernameSchema "  alice  " = success "alice" ∧
   validate usernameSchema "alice" = success "alice") ∧
  (validate roomSchema " Room 123 " = success "Room 123" ∧
   "Room 123" ≠ EmptyString ∧
   validate roomSchema "Room 123" = success "Room 123") ∧
  (validate messageSchema " <hi> " = success "&lt;hi&gt;" ∧
   "&lt;hi&gt;" ≠ EmptyString ∧
   (String.length "&lt;hi&gt;" ≤ 1000)%nat ∧
   validate messageSchema "&lt;hi&gt;" = success "&lt;hi&gt;").
Proof.
  destruct validators_idempotent_on_output as (Hname & Hroom & Hmsg).
  split; [|split].
  - split; [reflexivity|]. apply (Hname "  alice  "). reflexivity.
  - split; [reflexivity|]. split; [discriminate|].
    apply (Hroom " Room 123 "); [reflexivity | discriminate].
  - split; [reflexivity|]. split; [discriminate|]. split; [simpl; lia|].
    apply (Hmsg " <hi> "); [reflexivity | discriminate | simpl; lia].
Defined.

(** ** The insertion-ordered map *)

Section JsMapFacts.
Context {V : Type}.
Implicit Types (m : list (string * V)) (k : string) (v : V).

Lemma get_set m k v k' :
  JsMap.get (JsMap.set m k v) k' = if decide (k = k') then Some v else JsMap.get m k'.
Proof.
  induction m as [|[k0 v0] m IH]; simpl.
  - repeat case_decide; congruence.
  - repeat (case_decide; simpl); congruence.
Qed.

Lemma get_None_keys m k : JsMap.get m k = None ↔ k ∉ JsMap.keys m.
Proof.
  induction m as [|[k0 v0] m IH]; simpl.
  - split; [intros _; apply not_elem_of_nil | reflexivity].
  - rewrite not_elem_of_cons. case_decide; split.
    + discriminate.
    + intros [? _]. congruence.
    + intros H'. split; [congruence | now apply IH].
    + intros [_ H']. now apply IH.
Qed.

Lemma keys_delete_subset m k k' :
  k' ∈ JsMap.keys (JsMap.delete m k) → k' ∈ JsMap.keys m.
Proof.
  induction m as [|[k0 v0] m IH]; simpl; [done|].
  case_decide; simpl; rewrite !elem_of_cons; [auto|].
  intros [-> | H']; auto.
Qed.

Lemma get_delete m k k' :
  NoDup (JsMap.keys m) →
  JsMap.get (JsMap.delete m k) k' = if decide (k = k') then None else JsMap.get m k'.
Proof.
  induction m as [|[k0 v0] m IH]; simpl; intros Hnd.
  - now case_decide.
  - apply NoDup_cons in Hnd as [Hk0 Hnd]. specialize (IH Hnd).
    repeat (case_decide; simpl); subst; try congruence.
    now apply get_None_keys.
Qed.

Lemma keys_set m k v :
  JsMap.keys (JsMap.set m k v) =
  if decide (k ∈ JsMap.keys m) then JsMap.keys m else (JsMap.keys m ++ [k])%list.
Proof.
  induction m as [|[k0 v0] m IH]; simpl.
  - destruct (decide (k ∈ [])) as [H|H]; [now apply elem_of_nil in H | reflexivity].
  - destruct (decide (k0 = k)) as [E|E]; simpl.
    + subst. rewrite decide_True by apply list_elem_of_here. reflexivity.
    + rewrite IH. unfold JsMap.keys.
      destruct (decide (k ∈ map fst m)) as [Hin|Hin].
      * rewrite decide_True by now apply list_elem_of_further. reflexivity.
      * rewrite decide_False; [reflexivity|].
        rewrite elem_of_cons. intros [->|?]; congruence.
Qed.

Lemma NoDup_keys_set m k v : NoDup (JsMap.keys m) → NoDup (JsMap.keys (JsMap.set m k v)).
Proof.
  intros Hnd. rewrite keys_set. case_decide; [exact Hnd|].
  apply NoDup_app. split; [exact Hnd|]. split.
  - intros x Hx Hx'. apply list_elem_of_singleton in Hx'. now subst.
  - apply NoDup_singleton.
Qed.

Lemma NoDup_keys_delete m k : NoDup (JsMap.keys m) → NoDup (JsMap.keys (JsMap.delete m k)).
Proof.
  induction m as [|[k0 v0] m IH]; simpl; intros Hnd; [exact Hnd|].
  apply NoDup_cons in Hnd as [Hk0 Hnd].
  case_decide; [exact Hnd|]. simpl. apply NoDup_cons. split; [|now apply IH].
  intros Hin. apply Hk0. now apply keys_delete_subset in Hin.
Qed.

Lemma get_Some_values m k v : JsMap.get m k = Some v → v ∈ JsMap.values m.
Proof.
  induction m as [|[k0 v0] m IH]; simpl; [discriminate|].
  case_decide.
  - intros [= ->]. apply list_elem_of_here.
  - intros H'. apply list_elem_of_further. now apply IH.
Qed.

Lemma values_get m v :
  NoDup (JsMap.keys m) → v ∈ JsMap.values m → ∃ k, JsMap.get m k = Some v.
Proof.
  induction m as [|[k0 v0] m IH]; simpl; intros Hnd Hin.
  - now apply elem_of_nil in Hin.
  - apply NoDup_cons in Hnd as [Hk0 Hnd].
    apply elem_of_cons in Hin as [-> | Hin].
    + exists k0. now rewrite decide_True.
    + destruct (IH Hnd Hin) as [k Hk]. exists k.
      rewrite decide_False; [exact Hk|].
      intros ->. apply get_None_keys in Hk0. unfold JsMap.keys in Hk0. congruence.
Qed.

End JsMapFacts.

(** ** The presence registry *)

Section RegistryFacts.
Implicit Types (store : InMemoryUserStore) (id username room : string).

Lemma truthy_nonempty id : truthy id = true ↔ id ≠ EmptyString.
Proof.
  unfold truthy. destruct (String.eqb_spec id EmptyString); simpl; split;
    congruence.
Qed.

Lemma consistent_empty : consistent Store.empty.
Proof.
  split; simpl.
  - apply NoDup_nil_2.
  - discriminate.
  - intros n k H. now rewrite lookup_empty in H.
Qed.

(** In a consistent registry the lookup by name finds exactly the users
    bearing that name, compared case-insensitively. *)
Lemma findByUsername_Some store username u :
  consistent store →
  Store.findByUsername store username = Some u →
  u ∈ Store.getAll store ∧
  toLowerCase (User.username u) = toLowerCase username.
Proof.
  intros Hc. unfold Store.findByUsername.
  destruct (usernameIndex store !! toLowerCase username) as [k|] eqn:Hk; [|discriminate].
  destruct (truthy k); [|discriminate]. intros Hu.
  destruct (index_sound _ Hc _ _ Hk) as (u' & Hu' & Hn).
  assert (u' = u) as -> by congruence.
  split; [|exact Hn]. now apply get_Some_values in Hu.
Qed.

Lemma findByUsername_active store username :
  consistent store →
  is_Some (Store.findByUsername store username) ↔ name_active store username.
Proof.
  intros Hc. split.
  - intros [u Hu]. exists u. now apply findByUsername_Some.
  - intros (u & Hin & Hn).
    destruct (values_get _ _ (keys_nodup _ Hc) Hin) as [k Hk].
    destruct (users_indexed _ Hc _ _ Hk) as (_ & Hne & Hidx).
    exists u. unfold Store.findByUsername. rewrite <- Hn, Hidx.
    apply truthy_nonempty in Hne. now rewrite Hne.
Qed.


Lemma join_fails_iff_found store id username room :
  fst (UserService.join store id username room) =
    failure (UserError "Username is already taken" USERNAME_TAKEN) ↔
  is_Some (Store.findByUsername store username).
Proof.
  unfold UserService.join.
  destruct (Store.findByUsername store username); simpl; split.
  - eauto.
  - reflexivity.
  - discriminate.
  - intros [? ?]. discriminate.
Qed.

(** In a consistent registry [join] fails with [USERNAME_TAKEN] exactly
    when an active user bears the name, whatever the case. *)
Lemma join_taken_iff_consistent store id username room :
  consistent store →
  fst (UserService.join store id username room) =
    failure (UserError "Username is already taken" USERNAME_TAKEN) ↔
  name_active store username.
Proof.
  intros Hc. rewrite join_fails_iff_found. now apply findByUsername_active.
Qed.

Lemma consistent_join store id username room :
  consistent store → id ≠ EmptyString →
  UserService.getById store id = None →
  consistent (snd (UserService.join store id username room)).
Proof.
  intros Hc Hid Hfresh. unfold UserService.join.
  destruct (Store.findByUsername store username) as [u0|] eqn:Hfind; [exact Hc|].
  simpl. unfold UserService.getById, Store.findById in Hfresh.
  split; simpl.
  - apply NoDup_keys_set, (keys_nodup _ Hc).
  - intros k u. rewrite get_set. case_decide as E.
    + intros [= <-]. simpl. subst k. repeat split; [exact Hid|].
      apply lookup_insert_eq.
    + intros Hu. destruct (users_indexed _ Hc _ _ Hu) as (Hk & Hne & Hidx).
      repeat split; [exact Hk | exact Hne |].
      rewrite lookup_insert_ne; [exact Hidx|].
      intros Heq. unfold Store.findByUsername in Hfind.
      rewrite Heq, Hidx in Hfind. apply truthy_nonempty in Hne.
      rewrite Hne in Hfind. congruence.
  - intros n k. rewrite lookup_insert_Some. intros [[<- <-] | [Hn Hk]].
    + exists (User.mk id username room). rewrite get_set, decide_True by reflexivity.
      split; reflexivity.
    + destruct (index_sound _ Hc _ _ Hk) as (u & Hu & Hun).
      exists u. split; [|exact Hun]. rewrite get_set.
      case_decide; [subst; congruence | exact Hu].
Qed.

Lemma consistent_leave store id :
  consistent store → consistent (snd (UserService.leave store id)).
Proof.
  intros Hc. unfold UserService.leave, Store.remove.
  destruct (JsMap.get (users store) id) as [user|] eqn:Huser; [|exact Hc].
  pose proof (keys_nodup _ Hc) as Hnd.
  destruct (users_indexed _ Hc _ _ Huser) as (_ & _ & Hidx).
  split; simpl.
  - now apply NoDup_keys_delete.
  - intros k u. rewrite get_delete by exact Hnd. case_decide as E; [discriminate|].
    intros Hu. destruct (users_indexed _ Hc _ _ Hu) as (Hk & Hne & Hi).
    repeat split; [exact Hk | exact Hne |].
    rewrite lookup_delete_ne; [exact Hi|].
    intros Heq. rewrite Heq, Hi in Hidx. congruence.
  - intros n k. rewrite lookup_delete_Some. intros [Hn Hk].
    destruct (index_sound _ Hc _ _ Hk) as (u & Hu & Hun).
    exists u. split; [|exact Hun]. rewrite get_delete by exact Hnd.
    case_decide as E; [|exact Hu].
    subst k. assert (u = user) as -> by congruence. congruence.
Qed.

Lemma reachable_unjoined_consistent store :
  reachable_unjoined store → consistent store.
Proof.
  induction 1 as [| store id username room _ IH Hid Hfresh | store id _ IH].
  - apply consistent_empty.
  - now apply consistent_join.
  - now apply consistent_leave.
Qed.

Lemma isUsernameAvailable_consistent store username :
  consistent store →
  UserService.isUsernameAvailable store username = true ↔
  ¬ name_active store username.
Proof.
  intros Hc. rewrite <- (findByUsername_active _ _ Hc).
  unfold UserService.isUsernameAvailable.
  destruct (Store.findByUsername store username); split.
  - discriminate.
  - intros H. exfalso. apply H. eauto.
  - intros _ [? ?]. discriminate.
  - reflexivity.
Qed.

(** The user table stays indexed under every join and leave, also when a
    registered connection joins again. *)
Lemma indexed_join store id username room :
  indexed store → id ≠ EmptyString →
  indexed (snd (UserService.join store id username room)).
Proof.
  intros [Hnd Hix] Hid. unfold UserService.join.
  destruct (Store.findByUsername store username) as [u0|] eqn:Hfind; [now split|].
  split; simpl.
  - now apply NoDup_keys_set.
  - intros k u. rewrite get_set. case_decide as E.
    + intros [= <-]. simpl. subst k. repeat split; [exact Hid|].
      apply lookup_insert_eq.
    + intros Hu. destruct (Hix _ _ Hu) as (Hk & Hne & Hidx).
      repeat split; [exact Hk | exact Hne |].
      rewrite lookup_insert_ne; [exact Hidx|].
      intros Heq. unfold Store.findByUsername in Hfind.
      rewrite Heq, Hidx in Hfind. apply truthy_nonempty in Hne.
      rewrite Hne in Hfind. congruence.
Qed.

Lemma indexed_leave store id :
  indexed store → indexed (snd (UserService.leave store id)).
Proof.
  intros [Hnd Hix]. unfold UserService.leave, Store.remove.
  destruct (JsMap.get (users store) id) as [user|] eqn:Huser; [|now split].
  destruct (Hix _ _ Huser) as (_ & _ & Hidx).
  split; simpl.
  - now apply NoDup_keys_delete.
  - intros k u. rewrite get_delete by exact Hnd. case_decide as E; [discriminate|].
    intros Hu. destruct (Hix _ _ Hu) as (Hk & Hne & Hi).
    repeat split; [exact Hk | exact Hne |].
    rewrite lookup_delete_ne; [exact Hi|].
    intros Heq. rewrite Heq, Hi in Hidx. congruence.
Qed.

Lemma reachable_indexed store : reachable store → indexed store.
Proof.
  induction 1 as [| store id username room _ IH Hid | store id _ IH].
  - split; simpl; [apply NoDup_nil_2 | discriminate].
  - now apply indexed_join.
  - now apply indexed_leave.
Qed.


(** After a leave the connection is unknown, so that a second leave
    finds nothing to remove. *)
Lemma leave_twice store id :
  NoDup (JsMap.keys (users store)) →
  UserService.leave (snd (UserService.leave store id)) id =
    (None, snd (UserService.leave store id)).
Proof.
  intros Hnd. unfold UserService.leave, Store.remove.
  destruct (JsMap.get (users store) id) as [user|] eqn:Huser; simpl.
  - rewrite get_delete by exact Hnd. now rewrite decide_True.
  - now rewrite Huser.
Qed.

Lemma set_add_elem (s : list string) (x y : string) :
  y ∈ set_add s x ↔ y ∈ s ∨ y = x.
Proof.
  unfold set_add. case_decide as E.
  - split; [auto | intros [? | ->]; assumption].
  - rewrite elem_of_app, list_elem_of_singleton. reflexivity.
Qed.

Lemma foldl_set_add_elem (l : list User.t) (acc : list string) (r : string) :
  r ∈ foldl (λ rooms user, set_add rooms (User.room user)) acc l ↔
  r ∈ acc ∨ ∃ user, user ∈ l ∧ User.room user = r.
Proof.
  revert acc. induction l as [|u l IH]; intros acc; simpl.
  - split; [auto | intros [? | (u & Hu & _)]; [assumption|]].
    now apply elem_of_nil in Hu.
  - rewrite IH, set_add_elem. split.
    + intros [[? | ->] | (u' & Hu' & Hr)]; [auto | right | right].
      * exists u. split; [apply list_elem_of_here | reflexivity].
      * exists u'. split; [now apply list_elem_of_further | exact Hr].
    + intros [? | (u' & Hu' & Hr)]; [auto|].
      apply elem_of_cons in Hu' as [-> | Hu']; [auto|].
      right. eauto.
Qed.

(** [getActiveRooms] lists the room labels of the active users as they
    are stored. *)
Lemma getActiveRooms_elem store (r : string) :
  r ∈ UserService.getActiveRooms store ↔
  ∃ user, user ∈ Store.getAll store ∧ User.room user = r.
Proof.
  unfold UserService.getActiveRooms. rewrite foldl_set_add_elem.
  split; [intros [H | H]; [now apply elem_of_nil in H | exact H] | auto].
Qed.

Lemma lower_char_ascii_lower (c : ascii) :
  lower_char (ascii_lower_char c) = lower_char c.
Proof. destruct c as [[] [] [] [] [] [] [] []]; reflexivity. Qed.

Lemma toLowerCase_ascii_lowercase (s : string) :
  toLowerCase (ascii_lowercase s) = toLowerCase s.
Proof.
  induction s as [|c s IH]; simpl; [reflexivity|].
  now rewrite lower_char_ascii_lower, IH.
Qed.

Lemma equal_up_to_ascii_case_lower (a b : string) :
  equal_up_to_ascii_case a b → toLowerCase a = toLowerCase b.
Proof.
  unfold equal_up_to_ascii_case. intros H.
  rewrite <- (toLowerCase_ascii_lowercase a), <- (toLowerCase_ascii_lowercase b).
  now rewrite H.
Qed.

End RegistryFacts.

(** C1: a connection that joins as alice and joins again as bob leaves the
    index entry of alice behind; a later join as alice from another
    connection is refused with [USERNAME_TAKEN] although no active user
    bears that name. The refused join changes nothing. *)
Theorem join_name_taken_without_holder :
  let store :=
    run_calls [CallJoin "c1" "alice" "general"; CallJoin "c1" "bob" "general"] in
  reachable store ∧
  Store.getAll store = [User.mk "c1" "bob" "general"] ∧
  ¬ name_active store "alice" ∧
  UserService.join store "c2" "alice" "general" =
    (failure (UserError "Username is already taken" USERNAME_TAKEN), store) ∧
  snd (handleJoinRoom sample_clock store (fresh_socket "c2")
         (mkJoinRoomPayload "alice" "general")) =
    [Emit (ToSocket "c2") (USERNAME_ERROR "Username is already taken")].
Proof.
  intros store.
  assert (Hall : Store.getAll store = [User.mk "c1" "bob" "general"]) by reflexivity.
  split.
  { apply (r_join _ "c1" "bob" "general"); [|discriminate].
    apply (r_join _ "c1" "alice" "general"); [|discriminate].
    apply r_empty. }
  split; [exact Hall|]. split; [|split; reflexivity].
  intros (u & Hin & Hn). rewrite Hall in Hin.
  apply list_elem_of_singleton in Hin. subst u. discriminate Hn.
Qed.

(** C2: in the state reached by a join as alice followed by a second
    successful join of the same connection as bob, the lookup of alice
    returns the user bob, and alice is reported as not available although
    no active user bears that name. *)
Theorem rejoin_leaves_stale_index_entry :
  let store :=
    run_calls [CallJoin "c1" "alice" "general"; CallJoin "c1" "bob" "general"] in
  reachable store ∧
  UserService.getByUsername store "alice" = Some (User.mk "c1" "bob" "general") ∧
  toLowerCase "bob" ≠ toLowerCase "alice" ∧
  UserService.isUsernameAvailable store "alice" = false ∧
  (∀ user, user ∈ Store.getAll store →
           toLowerCase (User.username user) ≠ toLowerCase "alice").
Proof.
  intros store. split.
  { apply (r_join _ "c1" "bob" "general"); [|discriminate].
    apply (r_join _ "c1" "alice" "general"); [|discriminate].
    apply r_empty. }
  split; [reflexivity|]. split; [discriminate|]. split; [reflexivity|].
  intros u Hin.
  assert (Hall : Store.getAll store = [User.mk "c1" "bob" "general"]) by reflexivity.
  rewrite Hall in Hin. apply list_elem_of_singleton in Hin. subst u. discriminate.
Qed.

(** C7: [leave] for a connection without an active identity returns
    nothing and the registry it was given, so the active rooms and the
    members of every room are the same before and after, and a repeated
    call does the same again. *)
Theorem leave_unknown_changes_nothing (store : InMemoryUserStore) (id : string) :
  UserService.getById store id = None →
  UserService.leave store id = (None, store) ∧
  UserService.getActiveRooms (snd (UserService.leave store id)) =
    UserService.getActiveRooms store ∧
  (∀ room, UserService.getRoomUsers (snd (UserService.leave store id)) room =
           UserService.getRoomUsers store room) ∧
  UserService.leave (snd (UserService.leave store id)) id =
    UserService.leave store id.
Proof.
  intros H. unfold UserService.getById, Store.findById in H.
  assert (E : UserService.leave store id = (None, store)).
  { unfold UserService.leave, Store.remove. now rewrite H. }
  rewrite E. simpl. rewrite E. auto.
Qed.

Lemma leave_unknown_changes_nothing_witness :
  let store := run_calls [CallJoin "c1" "alice" "general"] in
  UserService.getById store "c2" = None ∧
  (UserService.leave store "c2" = (None, store) ∧
   UserService.getActiveRooms (snd (UserService.leave store "c2")) =
     UserService.getActiveRooms store ∧
   (∀ room, UserService.getRoomUsers (snd (UserService.leave store "c2")) room =
            UserService.getRoomUsers store room) ∧
   UserService.leave (snd (UserService.leave store "c2")) "c2" =
     UserService.leave store "c2").
Proof.
  intros store. split; [reflexivity|].
  apply (leave_unknown_changes_nothing store "c2"). reflexivity.
Defined.

(** C10: room labels equal up to ASCII case have the same members in
    every registry; [getActiveRooms] lists the labels as they are stored,
    so that two labels differing in case only can both be listed while
    they have one and the same member list. *)
Theorem roomMembers_ignore_case_activeRooms_verbatim :
  (∀ (store : InMemoryUserStore) (r1 r2 : string),
     equal_up_to_ascii_case r1 r2 →
     UserService.getRoomUsers store r1 = UserService.getRoomUsers store r2) ∧
  (∀ (store : InMemoryUserStore) (r : string),
     r ∈ UserService.getActiveRooms store ↔
     ∃ user, user ∈ Store.getAll store ∧ User.room user = r) ∧
  (let store :=
     run_calls [CallJoin "c1" "alice" "General"; CallJoin "c2" "bob" "general"] in
   UserService.getActiveRooms store = ["General"; "general"] ∧
   equal_up_to_ascii_case "General" "general" ∧
   UserService.getRoomUsers store "General" =
     [User.mk "c1" "alice" "General"; User.mk "c2" "bob" "general"] ∧
   UserService.getRoomUsers store "general" =
     [User.mk "c1" "alice" "General"; User.mk "c2" "bob" "general"]).
Proof.
  split; [|split].
  - intros store r1 r2 H. apply equal_up_to_ascii_case_lower in H.
    unfold UserService.getRoomUsers, Store.findByRoom. now rewrite H.
  - apply getActiveRooms_elem.
  - repeat split; reflexivity.
Qed.

Lemma roomMembers_ignore_case_activeRooms_verbatim_witness :
  let store :=
    run_calls [CallJoin "c1" "alice" "Lobby"; CallJoin "c2" "bob" "other"] in
  equal_up_to_ascii_case "LOBBY" "lobby" ∧
  UserService.getRoomUsers store "LOBBY" = UserService.getRoomUsers store "lobby".
Proof.
  intros store. split; [reflexivity|].
  apply (proj1 roomMembers_ignore_case_activeRooms_verbatim store "LOBBY" "lobby").
  reflexivity.
Defined.

(** ** The session handlers *)

(** C8: a chat message from a connection without [socket.data.user] and
    without an identity in the registry produces one effect only, the
    [USER_NOT_FOUND] error sent to that socket; the registry and the socket
    are returned as they were. *)
Theorem chatMessage_before_join (clock : Clock) (store : InMemoryUserStore)
    (socket : Socket) (msg : string) :
  data_user (data socket) = None →
  UserService.getById store (socket_id socket) = None →
  handleChatMessage clock store socket msg =
    (store, socket,
     [Emit (ToSocket (socket_id socket))
           (ERROR "USER_NOT_FOUND" "You must join a room first")]).
Proof.
  intros Hdata Hreg. unfold handleChatMessage, resolve_user.
  now rewrite Hdata, Hreg.
Qed.

Lemma chatMessage_before_join_witness :
  let store := run_calls [CallJoin "s1" "alice" "general"] in
  data_user (data (fresh_socket "s2")) = None ∧
  UserService.getById store (socket_id (fresh_socket "s2")) = None ∧
  handleChatMessage sample_clock store (fresh_socket "s2") "hello" =
    (store, fresh_socket "s2",
     [Emit (ToSocket "s2") (ERROR "USER_NOT_FOUND" "You must join a room first")]).
Proof.
  intros store. split; [reflexivity|]. split; [reflexivity|].
  apply (chatMessage_before_join sample_clock store (fresh_socket "s2") "hello");
    reflexivity.
Defined.

(** C9: a join that passes validation and is accepted by the registry
    subscribes the socket to the room and then emits, in this order, the
    welcome message to the socket itself, the joined notice to the room
    without the socket, and the list of the room users, which contains the
    new user, to the whole room. *)
Theorem join_emits_welcome_notice_snapshot (clock : Clock)
    (store store' : InMemoryUserStore) (socket : Socket)
    (payload validated : JoinRoomPayload) (user : User.t) :
  validate joinRoomSchema payload = success validated →
  UserService.join store (socket_id socket)
    (p_username validated) (p_room validated) = (success user, store') →
  snd (handleJoinRoom clock store socket payload) =
    [ SocketJoin (socket_id socket) (User.room user);
      Emit (ToSocket (socket_id socket))
           (MESSAGE (MessageService.welcome (rendered clock 0)));
      Emit (ToRoomExcept (User.room user) (socket_id socket))
           (MESSAGE (MessageService.userJoined (rendered clock 1) (User.username user)));
      Emit (ToRoom (User.room user))
           (ROOM_USERS (User.room user)
              (UserService.getRoomUsers store' (User.room user))) ] ∧
  emissions (snd (handleJoinRoom clock store socket payload)) =
    [ (ToSocket (socket_id socket),
       MESSAGE (MessageService.welcome (rendered clock 0)));
      (ToRoomExcept (User.room user) (socket_id socket),
       MESSAGE (MessageService.userJoined (rendered clock 1) (User.username user)));
      (ToRoom (User.room user),
       ROOM_USERS (User.room user)
         (UserService.getRoomUsers store' (User.room user))) ] ∧
  user ∈ UserService.getRoomUsers store' (User.room user).
Proof.
  intros Hval Hjoin.
  assert (Hout : snd (handleJoinRoom clock store socket payload) =
    [ SocketJoin (socket_id socket) (User.room user);
      Emit (ToSocket (socket_id socket))
           (MESSAGE (MessageService.welcome (rendered clock 0)));
      Emit (ToRoomExcept (User.room user) (socket_id socket))
           (MESSAGE (MessageService.userJoined (rendered clock 1) (User.username user)));
      Emit (ToRoom (User.room user))
           (ROOM_USERS (User.room user)
              (UserService.getRoomUsers store' (User.room user))) ]).
  { unfold handleJoinRoom. rewrite Hval. cbv zeta. rewrite Hjoin. reflexivity. }
  rewrite Hout. split; [reflexivity|]. split; [reflexivity|].
  unfold UserService.join in Hjoin.
  destruct (Store.findByUsername store (p_username validated)); [discriminate|].
  injection Hjoin as <- <-.
  unfold UserService.getRoomUsers, Store.findByRoom.
  apply list_elem_of_filter. split; [reflexivity|].
  apply (get_Some_values _ (socket_id socket)). simpl.
  rewrite get_set. now rewrite decide_True.
Qed.

Lemma join_emits_welcome_notice_snapshot_witness :
  let store := run_calls [CallJoin "s1" "alice" "general"] in
  let store' := run_calls [CallJoin "s1" "alice" "general"; CallJoin "s2" "bob" "general"] in
  let payload := mkJoinRoomPayload " bob " "general" in
  let user := User.mk "s2" "bob" "general" in
  validate joinRoomSchema payload = success (mkJoinRoomPayload "bob" "general") ∧
  UserService.join store "s2" "bob" "general" = (success user, store') ∧
  emissions (snd (handleJoinRoom sample_clock store (fresh_socket "s2") payload)) =
    [ (ToSocket "s2", MESSAGE (MessageService.welcome "10:00 am"));
      (ToRoomExcept "general" "s2", MESSAGE (MessageService.userJoined "10:00 am" "bob"));
      (ToRoom "general",
       ROOM_USERS "general" [User.mk "s1" "alice" "general"; user]) ].
Proof.
  intros store store' payload user.
  split; [reflexivity|]. split; [reflexivity|].
  apply (join_emits_welcome_notice_snapshot sample_clock store store'
           (fresh_socket "s2") payload (mkJoinRoomPayload "bob" "general") user);
    reflexivity.
Defined.


(** ** The server: connections that never joined *)

Section ServerFacts.
Implicit Types (srv : Server) (store : InMemoryUserStore) (socket : Socket).

Lemma get_delete_ne {V : Type} (m : list (string * V)) (k k' : string) :
  k ≠ k' → JsMap.get (JsMap.delete m k) k' = JsMap.get m k'.
Proof.
  intros Hne. induction m as [|[k0 v0] m IH]; simpl; [reflexivity|].
  repeat (case_decide; simpl); congruence.
Qed.

(** What [handleJoinRoom] does to the registry and to the socket: nothing,
    or it files the new user under the id of the socket and records it in
    [socket.data.user]. *)
Lemma handleJoinRoom_cases clock store socket payload :
  let '(store', socket', _) := handleJoinRoom clock store socket payload in
  (store' = store ∧ socket' = socket) ∨
  (∃ user, User.id user = socket_id socket ∧
           store' = Store.add store user ∧
           socket_id socket' = socket_id socket ∧
           data_user (data socket') = Some user).
Proof.
  unfold handleJoinRoom. destruct (validate joinRoomSchema payload) as [v|e]; [|now left].
  cbv zeta. unfold UserService.join.
  destruct (Store.findByUsername store (p_username v)); [now left|].
  right. eexists. repeat split; reflexivity.
Qed.

Lemma handleChatMessage_cases clock store socket msg :
  let '(store', socket', _) := handleChatMessage clock store socket msg in
  store' = store ∧ socket_id socket' = socket_id socket ∧
  data_user (data socket') = data_user (data socket).
Proof.
  unfold handleChatMessage. destruct (resolve_user store socket); [|done].
  destruct (validate messageSchema msg); done.
Qed.

Lemma server_inv_initial : server_inv initial_server.
Proof. split; simpl; [apply NoDup_nil_2 | discriminate]. Qed.

Lemma server_inv_dispatch clock srv ev :
  server_inv srv → server_inv (fst (dispatch clock srv ev)).
Proof.
  intros [Hnd Hreg]. destruct ev as [sid | sid payload | sid msg | sid b | sid]; simpl.
  - destruct (sockets srv !! sid) as [d|] eqn:Hd; simpl; [now split|].
    split; simpl; [exact Hnd|]. intros sid' u Hu.
    destruct (Hreg _ _ Hu) as (d' & Hd' & Hu'). exists d'. split; [|exact Hu'].
    rewrite lookup_insert_ne; [exact Hd' | congruence].
  - unfold with_socket. destruct (sockets srv !! sid) as [d|] eqn:Hd; simpl; [|now split].
    pose proof (handleJoinRoom_cases clock (registry srv) (mkSocket sid d) payload) as Hc.
    destruct (handleJoinRoom clock (registry srv) (mkSocket sid d) payload)
      as [[store' socket'] effects].
    destruct Hc as [[-> ->] | (user & Hid & -> & Hsid & Hdata)]; simpl in *.
    + rewrite insert_id by exact Hd. now split.
    + split; simpl.
      * now apply NoDup_keys_set.
      * intros sid' u. unfold UserService.getById, Store.findById. simpl.
        rewrite get_set, Hid. case_decide as E.
        -- intros [= <-]. subst sid'. exists (data socket').
           split; [apply lookup_insert_eq | exact Hdata].
        -- intros Hu. destruct (Hreg _ _ Hu) as (d' & Hd' & Hu').
           exists d'. split; [|exact Hu']. now rewrite lookup_insert_ne.
  - unfold with_socket. destruct (sockets srv !! sid) as [d|] eqn:Hd; simpl; [|now split].
    pose proof (handleChatMessage_cases clock (registry srv) (mkSocket sid d) msg) as Hc.
    destruct (handleChatMessage clock (registry srv) (mkSocket sid d) msg)
      as [[store' socket'] effects].
    destruct Hc as (-> & Hsid & Hdata); simpl in *.
    split; simpl; [exact Hnd|]. intros sid' u Hu.
    destruct (Hreg _ _ Hu) as (d' & Hd' & Hu').
    destruct (decide (sid = sid')) as [<- | Hne].
    + exists (data socket'). split; [apply lookup_insert_eq|].
      rewrite Hdata. congruence.
    + exists d'. split; [|exact Hu']. now rewrite lookup_insert_ne.
  - unfold with_socket. destruct (sockets srv !! sid) as [d|] eqn:Hd; simpl; [|now split].
    unfold handleTyping. destruct (resolve_user (registry srv) (mkSocket sid d)); simpl;
      rewrite insert_id by exact Hd; now split.
  - destruct (sockets srv !! sid) as [d|] eqn:Hd; simpl; [|now split].
    unfold handleDisconnect, UserService.leave, Store.remove. simpl.
    destruct (JsMap.get (users (registry srv)) sid) as [user|] eqn:Huser; simpl.
    + split; simpl; [now apply NoDup_keys_delete|].
      intros sid' u. unfold UserService.getById, Store.findById. simpl.
      rewrite get_delete by exact Hnd. case_decide as E; [discriminate|].
      intros Hu. destruct (Hreg _ _ Hu) as (d' & Hd' & Hu').
      exists d'. split; [|exact Hu']. now rewrite lookup_delete_ne.
    + split; simpl; [exact Hnd|]. intros sid' u Hu.
      destruct (Hreg _ _ Hu) as (d' & Hd' & Hu').
      exists d'. split; [|exact Hu']. rewrite lookup_delete_ne; [exact Hd'|].
      intros <-. unfold UserService.getById, Store.findById in Hu. congruence.
Qed.

Lemma server_reachable_inv srv : server_reachable srv → server_inv srv.
Proof.
  induction 1 as [| clock srv ev _ IH].
  - apply server_inv_initial.
  - now apply server_inv_dispatch.
Qed.

(** A connected socket without [socket.data.user] has no identity in the
    registry. *)
Lemma unjoined_socket_unregistered srv socketId d :
  server_reachable srv →
  sockets srv !! socketId = Some d → data_user d = None →
  UserService.getById (registry srv) socketId = None.
Proof.
  intros Hr Hd Hnone. apply server_reachable_inv in Hr as [_ Hreg].
  destruct (UserService.getById (registry srv) socketId) as [u|] eqn:Hu; [|reflexivity].
  destruct (Hreg _ _ Hu) as (d' & Hd' & Hu'). congruence.
Qed.

(** [socket.data.user] is unset when the socket connects and stays unset
    until a join of this socket is accepted. *)
Lemma unjoined_socket_stays_unjoined clock srv ev socketId d :
  sockets srv !! socketId = Some d → data_user d = None →
  (∀ payload, ev = JOIN_ROOM socketId payload →
     ∃ error, (handleJoinRoom clock (registry srv) (mkSocket socketId d) payload).2 =
              [Emit (ToSocket socketId) (USERNAME_ERROR error)]) →
  ev ≠ DISCONNECT socketId →
  ∃ d', sockets (fst (dispatch clock srv ev)) !! socketId = Some d' ∧
        data_user d' = None.
Proof.
  intros Hd Hnone Hjoin Hdisc.
  destruct ev as [sid | sid payload | sid msg | sid b | sid]; simpl.
  - destruct (sockets srv !! sid) as [d0|] eqn:Hd0; simpl; [eauto|].
    exists d. split; [|exact Hnone]. rewrite lookup_insert_ne; [exact Hd | congruence].
  - unfold with_socket. destruct (sockets srv !! sid) as [d0|] eqn:Hd0; simpl; [|eauto].
    pose proof (handleJoinRoom_cases clock (registry srv) (mkSocket sid d0) payload) as Hc.
    destruct (decide (sid = socketId)) as [-> | Hne].
    + assert (d0 = d) as -> by congruence.
      destruct (Hjoin payload eq_refl) as [error Herr].
      unfold handleJoinRoom in *.
      destruct (validate joinRoomSchema payload) as [v|e]; simpl in *.
      * unfold UserService.join in *.
        destruct (Store.findByUsername (registry srv) (p_username v)); simpl in *.
        -- exists d. split; [apply lookup_insert_eq | exact Hnone].
        -- discriminate Herr.
      * exists d. split; [apply lookup_insert_eq | exact Hnone].
    + destruct (handleJoinRoom clock (registry srv) (mkSocket sid d0) payload)
        as [[store' socket'] effects]. simpl.
      exists d. split; [|exact Hnone]. now rewrite lookup_insert_ne.
  - unfold with_socket. destruct (sockets srv !! sid) as [d0|] eqn:Hd0; simpl; [|eauto].
    pose proof (handleChatMessage_cases clock (registry srv) (mkSocket sid d0) msg) as Hc.
    destruct (handleChatMessage clock (registry srv) (mkSocket sid d0) msg)
      as [[store' socket'] effects].
    destruct Hc as (_ & _ & Hdata); simpl in *.
    destruct (decide (sid = socketId)) as [-> | Hne].
    + exists (data socket'). split; [apply lookup_insert_eq|]. congruence.
    + exists d. split; [|exact Hnone]. now rewrite lookup_insert_ne.
  - unfold with_socket. destruct (sockets srv !! sid) as [d0|] eqn:Hd0; simpl; [|eauto].
    unfold handleTyping. destruct (resolve_user (registry srv) (mkSocket sid d0)); simpl;
      rewrite insert_id by exact Hd0; eauto.
  - destruct (sockets srv !! sid) as [d0|] eqn:Hd0; simpl; [|eauto].
    destruct (handleDisconnect clock (registry srv) (mkSocket sid d0))
      as [[store' socket'] effects]. simpl.
    exists d. split; [|exact Hnone]. rewrite lookup_delete_ne; [exact Hd | congruence].
Qed.

(** The chat message of such a socket, as the server handles it. *)
Lemma dispatch_chatMessage_unjoined clock srv socketId d msg :
  server_reachable srv →
  sockets srv !! socketId = Some d → data_user d = None →
  dispatch clock srv (CHAT_MESSAGE socketId msg) =
    (srv, [Emit (ToSocket socketId)
                (ERROR "USER_NOT_FOUND" "You must join a room first")]).
Proof.
  intros Hr Hd Hnone.
  pose proof (unjoined_socket_unregistered _ _ _ Hr Hd Hnone) as Hreg.
  simpl. unfold with_socket. rewrite Hd.
  unfold handleChatMessage, resolve_user. simpl. rewrite Hnone, Hreg. simpl.
  rewrite insert_id by exact Hd. now destruct srv.
Qed.

End ServerFacts.


(* ===================================================================== *)
(** * Further properties of the registry *)
(* ===================================================================== *)

Section JsMapMore.
Context {V : Type}.
Implicit Types (m : list (string * V)) (k : string) (v : V).

Lemma set_fresh m k v :
  JsMap.get m k = None → JsMap.set m k v = (m ++ [(k, v)])%list.
Proof.
  induction m as [|[k0 v0] m IH]; simpl; [reflexivity|].
  case_decide; [discriminate|]. intros H'. now rewrite IH.
Qed.


Lemma length_set m k v :
  length (JsMap.set m k v) =
  match JsMap.get m k with Some _ => length m | None => S (length m) end.
Proof.
  induction m as [|[k0 v0] m IH]; simpl; [reflexivity|].
  case_decide; simpl; [reflexivity|]. rewrite IH.
  now destruct (JsMap.get m k).
Qed.

Lemma length_delete m k v :
  JsMap.get m k = Some v → S (length (JsMap.delete m k)) = length m.
Proof.
  induction m as [|[k0 v0] m IH]; simpl; [discriminate|].
  case_decide; [reflexivity|]. intros H'. simpl. now rewrite IH.
Qed.

Lemma filter_values_delete (P : V → Prop) `{∀ x, Decision (P x)} m k v :
  JsMap.get m k = Some v →
  (length (filter P (JsMap.values (JsMap.delete m k))) +
     (if decide (P v) then 1 else 0))%nat =
  length (filter P (JsMap.values m)).
Proof.
  induction m as [|[k0 v0] m IH]; simpl; [discriminate|].
  destruct (decide (k0 = k)) as [->|Hne].
  - intros [= ->]. rewrite filter_cons. destruct (decide (P v)); simpl; lia.
  - intros H'. simpl. rewrite !filter_cons. specialize (IH H').
    destruct (decide (P v0)); simpl; lia.
Qed.

Lemma get_Some_keys m k v : JsMap.get m k = Some v → k ∈ JsMap.keys m.
Proof.
  intros H'. destruct (decide (k ∈ JsMap.keys m)) as [|Hn]; [assumption|].
  apply get_None_keys in Hn. congruence.
Qed.

End JsMapMore.

Section RegistryMore.
Implicit Types (store : InMemoryUserStore) (id username room : string).

Lemma join_success_inv store id username room user store' :
  UserService.join store id username room = (success user, store') →
  Store.findByUsername store username = None ∧
  user = User.mk id username room ∧
  store' = Store.add store user.
Proof.
  unfold UserService.join.
  destruct (Store.findByUsername store username); [discriminate|].
  intros [= <- <-]. auto.
Qed.

(** In an indexed user table the ids of the users, in order, are the keys. *)
Lemma ids_are_keys (m : list (string * User.t)) :
  NoDup (JsMap.keys m) →
  (∀ k u, JsMap.get m k = Some u → User.id u = k) →
  map User.id (JsMap.values m) = JsMap.keys m.
Proof.
  induction m as [|[k0 u0] m IH]; simpl; intros Hnd Hid; [reflexivity|].
  apply NoDup_cons in Hnd as [Hk0 Hnd]. f_equal.
  - apply Hid. now rewrite decide_True.
  - apply IH; [exact Hnd|]. intros k u Hu. apply Hid.
    rewrite decide_False; [exact Hu|].
    intros ->. apply Hk0. now apply get_Some_keys in Hu.
Qed.


Lemma foldl_set_add_NoDup (l : list User.t) (acc : list string) :
  NoDup acc → NoDup (foldl (λ rooms user, set_add rooms (User.room user)) acc l).
Proof.
  revert acc. induction l as [|u l IH]; intros acc Hnd; simpl; [exact Hnd|].
  apply IH. unfold set_add. case_decide as E; [exact Hnd|].
  apply NoDup_app. split; [exact Hnd|]. split; [|apply NoDup_singleton].
  intros x Hx Hx'. apply list_elem_of_singleton in Hx'. now subst.
Qed.

End RegistryMore.

(** X1: an accepted join files the identity made of exactly the id, the
    name and the room it was given under that id, and the lookup of every
    other id is as before. *)
Theorem join_then_getById (store store' : InMemoryUserStore)
    (id username room : string) (user : User.t) :
  UserService.join store id username room = (success user, store') →
  user = User.mk id username room ∧
  UserService.getById store' id = Some user ∧
  (∀ id', id' ≠ id →
     UserService.getById store' id' = UserService.getById store id').
Proof.
  intros H. apply join_success_inv in H as (_ & -> & ->).
  unfold UserService.getById, Store.findById. simpl.
  split; [reflexivity|]. split.
  - rewrite get_set. now rewrite decide_True.
  - intros id' Hne. rewrite get_set. rewrite decide_False; congruence.
Qed.

Lemma join_then_getById_witness :
  let store := run_calls [CallJoin "c1" "alice" "general"] in
  let store' := run_calls [CallJoin "c1" "alice" "general"; CallJoin "c2" "Bob" "Lobby"] in
  UserService.join store "c2" "Bob" "Lobby" = (success (User.mk "c2" "Bob" "Lobby"), store') ∧
  UserService.getById store' "c2" = Some (User.mk "c2" "Bob" "Lobby").
Proof.
  intros store store'. split; [reflexivity|].
  apply (join_then_getById store store' "c2" "Bob" "Lobby"). reflexivity.
Defined.

(** X2: after an accepted join from a connection with a non-empty id, the
    lookup by name finds the new identity under every case variant of its
    name, the name is reported as taken, and a further join under any
    variant is refused. *)
Theorem join_then_name_taken (store store' : InMemoryUserStore)
    (id username room : string) (user : User.t) (variant id2 room2 : string) :
  UserService.join store id username room = (success user, store') →
  id ≠ EmptyString →
  toLowerCase variant = toLowerCase username →
  UserService.getByUsername store' variant = Some user ∧
  UserService.isUsernameAvailable store' variant = false ∧
  UserService.join store' id2 variant room2 =
    (failure (UserError "Username is already taken" USERNAME_TAKEN), store').
Proof.
  intros H Hid Hv. apply join_success_inv in H as (_ & -> & ->).
  assert (Hfind : Store.findByUsername
                    (Store.add store (User.mk id username room)) variant =
                  Some (User.mk id username room)).
  { unfold Store.findByUsername, Store.add. simpl.
    rewrite Hv, lookup_insert_eq. apply truthy_nonempty in Hid. rewrite Hid.
    rewrite get_set. now rewrite decide_True. }
  unfold UserService.getByUsername, UserService.isUsernameAvailable, UserService.join.
  rewrite Hfind. auto.
Qed.

Lemma join_then_name_taken_witness :
  let store' := run_calls [CallJoin "c1" "alice" "general"] in
  UserService.join Store.empty "c1" "alice" "general" =
    (success (User.mk "c1" "alice" "general"), store') ∧
  "c1" ≠ EmptyString ∧
  toLowerCase "ALICE" = toLowerCase "alice" ∧
  UserService.join store' "c2" "ALICE" "random" =
    (failure (UserError "Username is already taken" USERNAME_TAKEN), store').
Proof.
  intros store'. split; [reflexivity|]. split; [discriminate|]. split; [reflexivity|].
  apply (join_then_name_taken Store.empty store' "c1" "alice" "general"
           (User.mk "c1" "alice" "general") "ALICE" "c2" "random");
    [reflexivity | discriminate | reflexivity].
Defined.

(** X3: in every registry reached by joins, from non-empty ids, and leaves,
    no two active identities have the same connection id, every identity is
    filed under its own id, and no two have names equal up to case. *)
Theorem reachable_identities_unique (store : InMemoryUserStore) :
  reachable store →
  NoDup (map User.id (Store.getAll store)) ∧
  (∀ id u, UserService.getById store id = Some u → User.id u = id) ∧
  (∀ u1 u2, u1 ∈ Store.getAll store → u2 ∈ Store.getAll store →
            toLowerCase (User.username u1) = toLowerCase (User.username u2) →
            u1 = u2).
Proof.
  intros Hr. apply reachable_indexed in Hr as [Hnd Hix].
  split; [|split].
  - unfold Store.getAll. rewrite ids_are_keys; [exact Hnd | exact Hnd |].
    intros k u Hu. now destruct (Hix _ _ Hu).
  - intros id u Hu. now destruct (Hix _ _ Hu).
  - intros u1 u2 H1 H2 Hn.
    destruct (values_get _ _ Hnd H1) as [k1 Hk1].
    destruct (values_get _ _ Hnd H2) as [k2 Hk2].
    destruct (Hix _ _ Hk1) as (_ & _ & Hi1).
    destruct (Hix _ _ Hk2) as (_ & _ & Hi2).
    rewrite Hn in Hi1. congruence.
Qed.

Lemma reachable_identities_unique_witness :
  let store := run_calls [CallJoin "c1" "alice" "general"; CallJoin "c2" "bob" "general"] in
  reachable store ∧ NoDup (map User.id (Store.getAll store)).
Proof.
  intros store.
  assert (Hr : reachable store).
  { apply (r_join _ "c2" "bob" "general"); [|discriminate].
    apply (r_join _ "c1" "alice" "general"); [|discriminate].
    apply r_empty. }
  split; [exact Hr|]. apply (reachable_identities_unique store Hr).
Defined.

(** X4: in a reachable registry, a leave that returns an identity returns
    the one filed under that id and removes it: the id is unknown
    afterwards, the identity is no longer listed, its name is available
    again, and every other id is looked up as before. *)
Theorem leave_removes_identity (store store' : InMemoryUserStore)
    (id : string) (u : User.t) :
  reachable store →
  UserService.leave store id = (Some u, store') →
  UserService.getById store id = Some u ∧
  UserService.getById store' id = None ∧
  (u ∉ Store.getAll store') ∧
  UserService.isUsernameAvailable store' (User.username u) = true ∧
  (∀ id', id' ≠ id →
     UserService.getById store' id' = UserService.getById store id').
Proof.
  intros Hr. apply reachable_indexed in Hr as [Hnd Hix].
  unfold UserService.leave, Store.remove, UserService.getById, Store.findById.
  destruct (JsMap.get (users store) id) as [user|] eqn:Huser; [|discriminate].
  intros [= -> <-]. simpl. split; [reflexivity|]. split; [|split; [|split]].
  - rewrite get_delete by exact Hnd. now rewrite decide_True.
  - intros Hin. unfold Store.getAll in Hin. simpl in Hin.
    destruct (values_get _ _ (NoDup_keys_delete _ id Hnd) Hin) as [k Hk].
    rewrite get_delete in Hk by exact Hnd. case_decide as E; [discriminate|].
    destruct (Hix _ _ Hk) as (Hid1 & _). destruct (Hix _ _ Huser) as (Hid2 & _).
    congruence.
  - unfold UserService.isUsernameAvailable, Store.findByUsername. simpl.
    now rewrite lookup_delete_eq.
  - intros id' Hne. rewrite get_delete by exact Hnd.
    rewrite decide_False; congruence.
Qed.

Lemma leave_removes_identity_witness :
  let store := run_calls [CallJoin "c1" "alice" "general"; CallJoin "c2" "bob" "general"] in
  let store' := run_calls [CallJoin "c1" "alice" "general"; CallJoin "c2" "bob" "general";
                           CallLeave "c1"] in
  reachable store ∧
  UserService.leave store "c1" = (Some (User.mk "c1" "alice" "general"), store') ∧
  UserService.getById store' "c1" = None.
Proof.
  intros store store'.
  assert (Hr : reachable store).
  { apply (r_join _ "c2" "bob" "general"); [|discriminate].
    apply (r_join _ "c1" "alice" "general"); [|discriminate].
    apply r_empty. }
  split; [exact Hr|]. split; [reflexivity|].
  apply (leave_removes_identity store store' "c1" (User.mk "c1" "alice" "general") Hr).
  reflexivity.
Defined.



(** X6: an accepted join from an unregistered connection appends the new
    identity to the list of all users; it is appended to the members of the
    rooms whose label equals its room up to case and the members of every
    other room stay as they were; the total count grows by one. *)
Theorem fresh_join_appends_member (store store' : InMemoryUserStore)
    (id username room : string) (user : User.t) :
  UserService.getById store id = None →
  UserService.join store id username room = (success user, store') →
  Store.getAll store' = (Store.getAll store ++ [user])%list ∧
  (∀ r, UserService.getRoomUsers store' r =
        (UserService.getRoomUsers store r ++
         (if decide (toLowerCase room = toLowerCase r) then [user] else []))%list) ∧
  UserService.getTotalCount store' = S (UserService.getTotalCount store).
Proof.
  intros Hfresh H. apply join_success_inv in H as (_ & -> & ->).
  unfold UserService.getById, Store.findById in Hfresh.
  assert (Hall : Store.getAll (Store.add store (User.mk id username room)) =
                 (Store.getAll store ++ [User.mk id username room])%list).
  { unfold Store.getAll, Store.add, JsMap.values. simpl.
    rewrite (set_fresh _ _ _ Hfresh). now rewrite map_app. }
  split; [exact Hall|]. split.
  - intros r. unfold UserService.getRoomUsers, Store.findByRoom.
    fold (Store.getAll (Store.add store (User.mk id username room))).
    fold (Store.getAll store). rewrite Hall, filter_app. reflexivity.
  - unfold UserService.getTotalCount, Store.count, Store.add. simpl.
    rewrite length_set. now rewrite Hfresh.
Qed.

Lemma fresh_join_appends_member_witness :
  let store := run_calls [CallJoin "c1" "alice" "General"] in
  let store' := run_calls [CallJoin "c1" "alice" "General"; CallJoin "c2" "bob" "general"] in
  UserService.getById store "c2" = None ∧
  UserService.join store "c2" "bob" "general" = (success (User.mk "c2" "bob" "general"), store') ∧
  UserService.getTotalCount store' = S (UserService.getTotalCount store).
Proof.
  intros store store'. split; [reflexivity|]. split; [reflexivity|].
  apply (fresh_join_appends_member store store' "c2" "bob" "general"
           (User.mk "c2" "bob" "general")); reflexivity.
Defined.

(** X7: a leave that returns an identity lowers the total count by one and
    the count of exactly the rooms whose label equals the room of that
    identity up to case; the counts of the other rooms are as before. *)
Theorem leave_lowers_counts (store store' : InMemoryUserStore)
    (id : string) (u : User.t) :
  UserService.leave store id = (Some u, store') →
  S (UserService.getTotalCount store') = UserService.getTotalCount store ∧
  (∀ r, (UserService.getRoomCount store' r +
         (if decide (toLowerCase (User.room u) = toLowerCase r) then 1 else 0))%nat =
        UserService.getRoomCount store r).
Proof.
  unfold UserService.leave, Store.remove.
  destruct (JsMap.get (users store) id) as [user|] eqn:Huser; [|discriminate].
  intros [= -> <-]. split.
  - unfold UserService.getTotalCount, Store.count. simpl.
    now apply (length_delete _ _ u).
  - intros r. unfold UserService.getRoomCount, Store.findByRoom. simpl.
    exact (filter_values_delete
             (λ user, toLowerCase (User.room user) = toLowerCase r) _ _ _ Huser).
Qed.

Lemma leave_lowers_counts_witness :
  let store := run_calls [CallJoin "c1" "alice" "general"; CallJoin "c2" "bob" "general"] in
  let store' := run_calls [CallJoin "c1" "alice" "general"; CallJoin "c2" "bob" "general";
                           CallLeave "c1"] in
  UserService.leave store "c1" = (Some (User.mk "c1" "alice" "general"), store') ∧
  S (UserService.getTotalCount store') = UserService.getTotalCount store.
Proof.
  intros store store'. split; [reflexivity|].
  apply (leave_lowers_counts store store' "c1" (User.mk "c1" "alice" "general")).
  reflexivity.
Defined.

(** X8: [getActiveRooms] never lists a label twice, and every label it
    lists has at least one member. *)
Theorem getActiveRooms_distinct_nonempty (store : InMemoryUserStore) :
  NoDup (UserService.getActiveRooms store) ∧
  (∀ r, r ∈ UserService.getActiveRooms store →
        (0 < UserService.getRoomCount store r)%nat).
Proof.
  split.
  - unfold UserService.getActiveRooms. apply foldl_set_add_NoDup, NoDup_nil_2.
  - intros r Hr. apply getActiveRooms_elem in Hr as (u & Hin & Hroom).
    unfold UserService.getRoomCount, Store.findByRoom.
    assert (Hmem : u ∈ filter (λ user, toLowerCase (User.room user) = toLowerCase r)
                              (JsMap.values (users store))).
    { apply list_elem_of_filter. split; [now rewrite Hroom | exact Hin]. }
    destruct (filter _ _); [now apply elem_of_nil in Hmem | simpl; lia].
Qed.

(** X9: when a registered connection joins again under a free name, the
    new identity takes the place of the old one: the order of the
    connection ids and the total count are unchanged, and the id is looked
    up to the new identity. *)
Theorem rejoin_replaces_in_place (store store' : InMemoryUserStore)
    (id username room : string) (old user : User.t) :
  UserService.getById store id = Some old →
  UserService.join store id username room = (success user, store') →
  JsMap.keys (users store') = JsMap.keys (users store) ∧
  UserService.getTotalCount store' = UserService.getTotalCount store ∧
  UserService.getById store' id = Some (User.mk id username room).
Proof.
  intros Hold H. apply join_success_inv in H as (_ & -> & ->).
  unfold UserService.getById, Store.findById in *.
  unfold UserService.getTotalCount, Store.count, Store.add. simpl.
  split; [|split].
  - rewrite keys_set. rewrite decide_True; [reflexivity|].
    now apply get_Some_keys in Hold.
  - rewrite length_set. now rewrite Hold.
  - rewrite get_set. now rewrite decide_True.
Qed.

Lemma rejoin_replaces_in_place_witness :
  let store := run_calls [CallJoin "c1" "alice" "general"; CallJoin "c2" "bob" "general"] in
  let store' := run_calls [CallJoin "c1" "alice" "general"; CallJoin "c2" "bob" "general";
                           CallJoin "c1" "carol" "random"] in
  UserService.getById store "c1" = Some (User.mk "c1" "alice" "general") ∧
  UserService.join store "c1" "carol" "random" =
    (success (User.mk "c1" "carol" "random"), store') ∧
  Store.getAll store' = [User.mk "c1" "carol" "random"; User.mk "c2" "bob" "general"] ∧
  UserService.getTotalCount store' = UserService.getTotalCount store.
Proof.
  intros store store'. split; [reflexivity|]. split; [reflexivity|]. split; [reflexivity|].
  apply (rejoin_replaces_in_place store store' "c1" "carol" "random"
           (User.mk "c1" "alice" "general") (User.mk "c1" "carol" "random"));
    reflexivity.
Defined.

(** X10: in every registry, names equal up to ASCII case are looked up to
    the same identity, are available or taken together, and a join under
    one is refused exactly when a join under the other is. *)
Theorem name_lookup_ignores_case (store : InMemoryUserStore)
    (n1 n2 id room : string) :
  equal_up_to_ascii_case n1 n2 →
  UserService.getByUsername store n1 = UserService.getByUsername store n2 ∧
  UserService.isUsernameAvailable store n1 = UserService.isUsernameAvailable store n2 ∧
  (fst (UserService.join store id n1 room) =
     failure (UserError "Username is already taken" USERNAME_TAKEN) ↔
   fst (UserService.join store id n2 room) =
     failure (UserError "Username is already taken" USERNAME_TAKEN)).
Proof.
  intros H. apply equal_up_to_ascii_case_lower in H.
  assert (Hf : Store.findByUsername store n1 = Store.findByUsername store n2).
  { unfold Store.findByUsername. now rewrite H. }
  unfold UserService.getByUsername, UserService.isUsernameAvailable.
  rewrite !join_fails_iff_found, Hf. auto.
Qed.

Lemma name_lookup_ignores_case_witness :
  let store := run_calls [CallJoin "c1" "Alice" "general"] in
  equal_up_to_ascii_case "ALICE" "alice" ∧
  UserService.getByUsername store "ALICE" = UserService.getByUsername store "alice".
Proof.
  intros store. split; [reflexivity|].
  apply (name_lookup_ignores_case store "ALICE" "alice" "c2" "general"). reflexivity.
Defined.

(** X11: where no registered connection has joined again, the name index
    is exact: a lookup by name returns an active identity of that name up
    to case, a name is available exactly when no active identity bears it,
    and a join is refused with [USERNAME_TAKEN] exactly when one does. *)
Theorem unjoined_registry_index_exact (store : InMemoryUserStore) :
  reachable_unjoined store →
  (∀ n u, UserService.getByUsername store n = Some u →
          u ∈ Store.getAll store ∧
          toLowerCase (User.username u) = toLowerCase n) ∧
  (∀ n, UserService.isUsernameAvailable store n = true ↔ ¬ name_active store n) ∧
  (∀ id n room,
     fst (UserService.join store id n room) =
       failure (UserError "Username is already taken" USERNAME_TAKEN) ↔
     name_active store n).
Proof.
  intros Hr. apply reachable_unjoined_consistent in Hr.
  split; [|split].
  - intros n u. now apply findByUsername_Some.
  - intros n. now apply isUsernameAvailable_consistent.
  - intros id n room. now apply join_taken_iff_consistent.
Qed.

Lemma unjoined_registry_index_exact_witness :
  let store := run_calls [CallJoin "c1" "Alice" "general"] in
  reachable_unjoined store ∧
  (UserService.isUsernameAvailable store "bob" = true ↔ ¬ name_active store "bob").
Proof.
  intros store.
  assert (Hr : reachable_unjoined store).
  { apply (ru_join _ "c1" "Alice" "general"); [apply ru_empty | discriminate | reflexivity]. }
  split; [exact Hr|]. apply (unjoined_registry_index_exact store Hr).
Defined.



(* ===================================================================== *)
(** * Further properties of the validators *)
(* ===================================================================== *)

Section ValidationMore.

#[local] Arguments String.append !s1 s2 / : simpl nomatch.

Lemma length_append (a b : string) :
  String.length (a +:+ b) = (String.length a + String.length b)%nat.
Proof. induction a as [|c a IH]; simpl; [reflexivity | now rewrite IH]. Qed.

Lemma length_escape_char (c : ascii) :
  (1 ≤ String.length (escape_char c) ≤ 6)%nat.
Proof.
  unfold escape_char.
  destruct (Ascii.eqb c "<"); [simpl; lia|].
  destruct (Ascii.eqb c ">"); [simpl; lia|].
  destruct (Ascii.eqb c DQUOTE); [simpl; lia|].
  destruct (Ascii.eqb c "'"); simpl; lia.
Qed.

Lemma length_escape_each (s : string) :
  (String.length s ≤ String.length (escape_each s) ≤ 6 * String.length s)%nat.
Proof.
  induction s as [|c s IH]; simpl; [lia|].
  rewrite length_append. pose proof (length_escape_char c). lia.
Qed.

Lemma occurs_all_chars (c : ascii) (s : string) :
  occurs c s = false ↔ all_chars (λ d, negb (Ascii.eqb d c)) s = true.
Proof.
  induction s as [|d s IH]; simpl; [split; reflexivity|].
  rewrite orb_false_iff, andb_true_iff, negb_true_iff, IH. reflexivity.
Qed.

Lemma occurs_trim (c : ascii) (s : string) :
  occurs c s = false → occurs c (trim s) = false.
Proof. rewrite !occurs_all_chars. apply all_chars_trim. Qed.

Lemma zstring_issues_nonempty (checks : list Check) (s : string) (errs : list Issue) :
  zstring checks s = issues errs → errs ≠ [].
Proof.
  unfold zstring. destruct (concat (map (λ chk, chk s) checks)); [discriminate|].
  intros [= <-]. discriminate.
Qed.

Lemma usernameSchema_issues_nonempty (raw : string) (errs : list Issue) :
  usernameSchema raw = issues errs → errs ≠ [].
Proof. unfold usernameSchema. simpl. apply zstring_issues_nonempty. Qed.

Lemma all_chars_matches_plus (p : ascii → bool) (s : string) :
  s ≠ EmptyString → matches_plus p s = all_chars p s.
Proof. destruct s; [congruence | reflexivity]. Qed.

End ValidationMore.

(** X13: [validateName] accepts a raw name exactly when its trimmed value
    has 2 to 20 characters, all of them letters, digits, underscores or
    hyphens, and returns that trimmed value; the verdict depends on the
    trimmed value alone. *)
Theorem validateName_accepts_trimmed (raw : string) :
  (∀ v, validate usernameSchema raw = success v ↔
        v = trim raw ∧ (2 ≤ String.length v ≤ 20)%nat ∧
        all_chars username_class v = true) ∧
  validate usernameSchema (trim raw) = validate usernameSchema raw.
Proof.
  split.
  - intros v. rewrite validate_success, usernameSchema_parsed.
    split; intros (Hv & Hlen & Hm); (split; [exact Hv|]); (split; [exact Hlen|]).
    + now apply matches_plus_all in Hm.
    + apply matches_plus_all. split; [|exact Hm].
      intros ->. simpl in Hlen. lia.
  - unfold validate, usernameSchema. simpl. now rewrite trim_idempotent.
Qed.

Lemma validateName_accepts_trimmed_witness :
  validate usernameSchema "  user-name_1 " = success "user-name_1" ∧
  validate usernameSchema (trim "  user-name_1 ") =
    validate usernameSchema "  user-name_1 ".
Proof.
  split.
  - apply (proj1 (validateName_accepts_trimmed "  user-name_1 ")).
    repeat split; simpl; lia.
  - apply (proj2 (validateName_accepts_trimmed "  user-name_1 ")).
Defined.

(** X14: [validateName] reports its first failed check: a trimmed name
    shorter than 2 is too short whatever its characters, one longer than 20
    is too long whatever its characters, and only a name of 2 to 20
    characters is reported for a character outside the class. *)
Theorem validateName_first_failed_check (raw : string) :
  ((String.length (trim raw) < 2)%nat →
   validate usernameSchema raw =
     failure (ValidationError "Username must be at least 2 characters")) ∧
  ((20 < String.length (trim raw))%nat →
   validate usernameSchema raw =
     failure (ValidationError "Username must be at most 20 characters")) ∧
  ((2 ≤ String.length (trim raw) ≤ 20)%nat →
   all_chars username_class (trim raw) = false →
   validate usernameSchema raw =
     failure (ValidationError
       "Username can only contain letters, numbers, underscores, and hyphens")).
Proof.
  unfold validate, usernameSchema, zstring, min, max, regex. simpl.
  split; [|split].
  - intros H. destruct (Nat.ltb_spec (String.length (trim raw)) 2); [|lia].
    destruct (Nat.ltb_spec 20 (String.length (trim raw))); [lia|].
    now destruct (matches_plus username_class (trim raw)).
  - intros H. destruct (Nat.ltb_spec (String.length (trim raw)) 2); [lia|].
    destruct (Nat.ltb_spec 20 (String.length (trim raw))); [|lia].
    now destruct (matches_plus username_class (trim raw)).
  - intros H Hc. destruct (Nat.ltb_spec (String.length (trim raw)) 2); [lia|].
    destruct (Nat.ltb_spec 20 (String.length (trim raw))); [lia|].
    rewrite all_chars_matches_plus, Hc; [reflexivity|].
    intros E. rewrite E in H. simpl in H. lia.
Qed.

Lemma validateName_first_failed_check_witness :
  (String.length (trim " @ ") < 2)%nat ∧
  validate usernameSchema " @ " =
    failure (ValidationError "Username must be at least 2 characters").
Proof.
  split; [simpl; lia|].
  apply (proj1 (validateName_first_failed_check " @ ")). simpl. lia.
Defined.

(** X15: [validateRoom] checks the raw label, before trimming: the empty
    label is reported as required, a raw label longer than 50 is too long
    even when its trimmed value is short, a label of 1 to 50 characters
    with a character outside the class is reported for it, and every other
    label is accepted and trimmed. *)
Theorem validateRoom_checks_raw (raw : string) :
  (raw = EmptyString →
   validate roomSchema raw = failure (ValidationError "Room name is required")) ∧
  ((50 < String.length raw)%nat →
   validate roomSchema raw =
     failure (ValidationError "Room name must be at most 50 characters")) ∧
  ((1 ≤ String.length raw ≤ 50)%nat → all_chars room_class raw = false →
   validate roomSchema raw =
     failure (ValidationError
       "Room name can only contain letters, numbers, spaces, underscores, and hyphens")) ∧
  ((1 ≤ String.length raw ≤ 50)%nat → all_chars room_class raw = true →
   validate roomSchema raw = success (trim raw)).
Proof.
  unfold validate, roomSchema, zstring, min, max, regex. simpl.
  split; [|split; [|split]].
  - intros ->. reflexivity.
  - intros H. destruct (Nat.ltb_spec (String.length raw) 1); [lia|].
    destruct (Nat.ltb_spec 50 (String.length raw)); [|lia].
    now destruct (matches_plus room_class raw).
  - intros H Hc. destruct (Nat.ltb_spec (String.length raw) 1); [lia|].
    destruct (Nat.ltb_spec 50 (String.length raw)); [lia|].
    rewrite all_chars_matches_plus, Hc; [reflexivity|].
    intros E. rewrite E in H. simpl in H. lia.
  - intros H Hc. destruct (Nat.ltb_spec (String.length raw) 1); [lia|].
    destruct (Nat.ltb_spec 50 (String.length raw)); [lia|].
    rewrite all_chars_matches_plus, Hc; [reflexivity|].
    intros E. rewrite E in H. simpl in H. lia.
Qed.

Lemma validateRoom_checks_raw_witness :
  (50 < String.length ("room" +:+ repeat " " 47))%nat ∧
  trim ("room" +:+ repeat " " 47) = "room" ∧
  validate roomSchema ("room" +:+ repeat " " 47) =
    failure (ValidationError "Room name must be at most 50 characters").
Proof.
  split; [vm_compute; lia|]. split; [vm_compute; reflexivity|].
  apply (proj1 (proj2 (validateRoom_checks_raw ("room" +:+ repeat " " 47)))).
  vm_compute. lia.
Defined.

(** X16: a room label that [validateRoom] returns has at most 50
    characters, all of them letters, digits, underscores, hyphens or
    spaces, and neither starts nor ends with whitespace. *)
Theorem validateRoom_output_shape (raw v : string) :
  validate roomSchema raw = success v →
  (String.length v ≤ 50)%nat ∧ all_chars room_class v = true ∧
  starts_ws v = false ∧ ends_ws v = false.
Proof.
  intros H. apply validate_success, roomSchema_parsed in H as (-> & Hlen & Hm).
  apply matches_plus_all in Hm as [_ Hall].
  pose proof (length_trim raw). destruct (trim_trimmed raw) as [H1 H2].
  split; [lia|]. split; [now apply all_chars_trim | auto].
Qed.

Lemma validateRoom_output_shape_witness :
  validate roomSchema "  Room 123 " = success "Room 123" ∧
  (String.length "Room 123" ≤ 50)%nat.
Proof.
  split; [reflexivity|].
  apply (validateRoom_output_shape "  Room 123 " "Room 123"). reflexivity.
Defined.

(** X17: [validateMessage] accepts a raw text exactly when it has 1 to 1000
    characters, whatever they are; the empty text is reported as empty and a
    longer one as too long. *)
Theorem validateMessage_accepts_by_length (raw : string) :
  ((1 ≤ String.length raw ≤ 1000)%nat ↔
   validate messageSchema raw = success (sanitize (trim raw))) ∧
  (raw = EmptyString →
   validate messageSchema raw = failure (ValidationError "Message cannot be empty")) ∧
  ((1000 < String.length raw)%nat →
   validate messageSchema raw =
     failure (ValidationError "Message must be at most 1000 characters")).
Proof.
  split; [|split].
  - rewrite validate_success, messageSchema_parsed. split; [auto | now intros [_ ?]].
  - intros ->. reflexivity.
  - intros H. unfold validate, messageSchema, zstring, min, max. simpl.
    destruct (Nat.ltb_spec (String.length raw) 1); [lia|].
    destruct (Nat.ltb_spec 1000 (String.length raw)); [reflexivity | lia].
Qed.

Lemma validateMessage_accepts_by_length_witness :
  (1000 < String.length (repeat "a" 1001))%nat ∧
  validate messageSchema (repeat "a" 1001) =
    failure (ValidationError "Message must be at most 1000 characters").
Proof.
  split; [rewrite length_repeat; lia|].
  apply (proj2 (proj2 (validateMessage_accepts_by_length (repeat "a" 1001)))).
  rewrite length_repeat. lia.
Defined.

(** X18: the text that [validateMessage] returns neither starts nor ends
    with whitespace and is at least as long as the trimmed raw text and at
    most six times as long as the raw text; a raw text without [<], [>],
    double and single quotes is returned trimmed and otherwise unchanged. *)
Theorem validateMessage_output_shape (raw text : string) :
  validate messageSchema raw = success text →
  starts_ws text = false ∧ ends_ws text = false ∧
  (String.length (trim raw) ≤ String.length text ≤ 6 * String.length raw)%nat ∧
  (occurs "<" raw = false → occurs ">" raw = false →
   occurs DQUOTE raw = false → occurs "'" raw = false → text = trim raw).
Proof.
  intros H. apply validate_success, messageSchema_parsed in H as (-> & Hlen).
  destruct (trim_trimmed raw) as [H1 H2].
  destruct (sanitize_trimmed _ H1 H2) as [H3 H4].
  split; [exact H3|]. split; [exact H4|]. split.
  - rewrite sanitize_escape_each.
    pose proof (length_escape_each (trim raw)). pose proof (length_trim raw). lia.
  - intros Ha Hb Hc Hd. apply sanitize_fixed; now apply occurs_trim.
Qed.

Lemma validateMessage_output_shape_witness :
  validate messageSchema " say 'hi' " = success "say &#x27;hi&#x27;" ∧
  (String.length (trim " say 'hi' ") ≤ String.length "say &#x27;hi&#x27;"
     ≤ 6 * String.length " say 'hi' ")%nat.
Proof.
  split; [reflexivity|].
  apply (validateMessage_output_shape " say 'hi' " "say &#x27;hi&#x27;"). reflexivity.
Defined.

(** X19: [joinRoomSchema] accepts a payload exactly when both fields are
    accepted and returns both normalized values; an error of the username
    is reported before any error of the room. *)
Theorem joinRoomSchema_username_first (payload : JoinRoomPayload) :
  validate joinRoomSchema payload =
    match validate usernameSchema (p_username payload) with
    | failure e => failure e
    | success u =>
        match validate roomSchema (p_room payload) with
        | failure e => failure e
        | success r => success (mkJoinRoomPayload u r)
        end
    end.
Proof.
  unfold validate, joinRoomSchema.
  destruct (usernameSchema (p_username payload)) as [u|e1] eqn:Hu;
    destruct (roomSchema (p_room payload)) as [r|e2]; try reflexivity.
  apply usernameSchema_issues_nonempty in Hu.
  destruct e1; [congruence | reflexivity].
Qed.

(* ===================================================================== *)
(** * Further properties of the session handlers *)
(* ===================================================================== *)

Section HandlersMore.

(** In an indexed user table the user removed by a leave is not listed
    under any other id. *)
Lemma leave_not_listed (store : InMemoryUserStore) (id : string) (u : User.t) :
  indexed store → JsMap.get (users store) id = Some u →
  u ∉ JsMap.values (JsMap.delete (users store) id).
Proof.
  intros [Hnd Hix] Hu Hin.
  destruct (values_get _ _ (NoDup_keys_delete _ id Hnd) Hin) as [k Hk].
  rewrite get_delete in Hk by exact Hnd. case_decide as E; [discriminate|].
  destruct (Hix _ _ Hk) as (Hid1 & _). destruct (Hix _ _ Hu) as (Hid2 & _).
  congruence.
Qed.

End HandlersMore.

(** X20: a join request that fails validation, or whose name the registry
    finds taken, changes neither the registry nor the socket and emits one
    event only, the [usernameError] with the message of the failure, to the
    requesting socket. *)
Theorem handleJoinRoom_rejected (clock : Clock) (store : InMemoryUserStore)
    (socket : Socket) (payload : JoinRoomPayload) :
  (∀ e, validate joinRoomSchema payload = failure e →
        handleJoinRoom clock store socket payload =
          (store, socket,
           [Emit (ToSocket (socket_id socket)) (USERNAME_ERROR (err_message e))])) ∧
  (∀ v, validate joinRoomSchema payload = success v →
        is_Some (Store.findByUsername store (p_username v)) →
        handleJoinRoom clock store socket payload =
          (store, socket,
           [Emit (ToSocket (socket_id socket))
                 (USERNAME_ERROR "Username is already taken")])).
Proof.
  unfold handleJoinRoom. split.
  - intros e ->. reflexivity.
  - intros v -> [u Hu]. cbv zeta. unfold UserService.join. rewrite Hu. reflexivity.
Qed.

Lemma handleJoinRoom_rejected_witness :
  let store := run_calls [CallJoin "s1" "alice" "general"] in
  validate joinRoomSchema (mkJoinRoomPayload " Alice " "lobby") =
    success (mkJoinRoomPayload "Alice" "lobby") ∧
  is_Some (Store.findByUsername store "Alice") ∧
  handleJoinRoom sample_clock store (fresh_socket "s2") (mkJoinRoomPayload " Alice " "lobby") =
    (store, fresh_socket "s2",
     [Emit (ToSocket "s2") (USERNAME_ERROR "Username is already taken")]).
Proof.
  intros store. split; [reflexivity|].
  assert (Hs : is_Some (Store.findByUsername store "Alice")) by (eexists; reflexivity).
  split; [exact Hs|].
  apply (proj2 (handleJoinRoom_rejected sample_clock store (fresh_socket "s2")
                  (mkJoinRoomPayload " Alice " "lobby"))
           (mkJoinRoomPayload "Alice" "lobby")); [reflexivity | exact Hs].
Defined.

(** X21: a raw message of 1 to 1000 characters from a socket with a
    resolved identity is sent once, to the whole room of that identity and
    so to the sender too, under the name of the identity and with the
    trimmed and escaped text; the registry is unchanged and the socket only
    gets its [lastActivity] set. *)
Theorem handleChatMessage_broadcasts (clock : Clock) (store : InMemoryUserStore)
    (socket : Socket) (msg : string) (user : User.t) :
  resolve_user store socket = Some user →
  (1 ≤ String.length msg ≤ 1000)%nat →
  handleChatMessage clock store socket msg =
    (store,
     mkSocket (socket_id socket)
       (mkSocketData (data_user (data socket)) (joinedAt (data socket))
                     (Some (date clock 0))),
     [Emit (ToRoom (User.room user))
           (MESSAGE (mkFormattedMessage (User.username user)
                       (escape_each (trim msg)) (rendered clock 0)))]).
Proof.
  intros Hu Hlen. unfold handleChatMessage. rewrite Hu.
  assert (Hv : validate messageSchema msg = success (sanitize (trim msg))).
  { apply validate_success, messageSchema_parsed. auto. }
  rewrite Hv, sanitize_escape_each. reflexivity.
Qed.

Lemma handleChatMessage_broadcasts_witness :
  let user := User.mk "s1" "alice" "general" in
  let store := run_calls [CallJoin "s1" "alice" "general"] in
  let socket := mkSocket "s1" (mkSocketData (Some user) (Some 0) None) in
  resolve_user store socket = Some user ∧
  (1 ≤ String.length " <hi> " ≤ 1000)%nat ∧
  handleChatMessage sample_clock store socket " <hi> " =
    (store, mkSocket "s1" (mkSocketData (Some user) (Some 0) (Some 0)),
     [Emit (ToRoom "general")
           (MESSAGE (mkFormattedMessage "alice" "&lt;hi&gt;" "10:00 am"))]).
Proof.
  intros user store socket. split; [reflexivity|]. split; [simpl; lia|].
  apply (handleChatMessage_broadcasts sample_clock store socket " <hi> " user);
    [reflexivity | simpl; lia].
Defined.

(** X22: an empty message, or one longer than 1000 characters, from a
    socket with a resolved identity is broadcast to nobody: the sender alone
    gets one [INVALID_MESSAGE] error with the message of the failed check,
    and the registry and the socket are unchanged. *)
Theorem handleChatMessage_invalid (clock : Clock) (store : InMemoryUserStore)
    (socket : Socket) (msg : string) (user : User.t) :
  resolve_user store socket = Some user →
  (msg = EmptyString →
   handleChatMessage clock store socket msg =
     (store, socket,
      [Emit (ToSocket (socket_id socket))
            (ERROR "INVALID_MESSAGE" "Message cannot be empty")])) ∧
  ((1000 < String.length msg)%nat →
   handleChatMessage clock store socket msg =
     (store, socket,
      [Emit (ToSocket (socket_id socket))
            (ERROR "INVALID_MESSAGE" "Message must be at most 1000 characters")])).
Proof.
  intros Hu. unfold handleChatMessage. rewrite Hu. split.
  - intros ->. reflexivity.
  - intros Hlen.
    assert (Hv : validate messageSchema msg =
                 failure (ValidationError "Message must be at most 1000 characters")).
    { unfold validate, messageSchema, zstring, min, max. simpl.
      destruct (Nat.ltb_spec (String.length msg) 1); [lia|].
      destruct (Nat.ltb_spec 1000 (String.length msg)); [reflexivity | lia]. }
    rewrite Hv. reflexivity.
Qed.

Lemma handleChatMessage_invalid_witness :
  let user := User.mk "s1" "alice" "general" in
  let store := run_calls [CallJoin "s1" "alice" "general"] in
  let socket := mkSocket "s1" (mkSocketData (Some user) (Some 0) None) in
  resolve_user store socket = Some user ∧
  handleChatMessage sample_clock store socket EmptyString =
    (store, socket,
     [Emit (ToSocket "s1") (ERROR "INVALID_MESSAGE" "Message cannot be empty")]).
Proof.
  intros user store socket. split; [reflexivity|].
  apply (proj1 (handleChatMessage_invalid sample_clock store socket EmptyString user
                  eq_refl)).
  reflexivity.
Defined.

(** X23: [handleDisconnect] for a socket whose id is registered, in a
    reachable registry, removes the identity and emits to its room first
    the notice that the user left and then the list of the room users, which
    no longer contains the user; for a socket whose id is not registered it
    changes nothing and emits nothing. *)
Theorem handleDisconnect_effects (clock : Clock) (store : InMemoryUserStore)
    (socket : Socket) :
  (∀ user, reachable store →
     UserService.getById store (socket_id socket) = Some user →
     ∃ store',
       handleDisconnect clock store socket =
         (store', socket,
          [ Emit (ToRoom (User.room user))
                 (MESSAGE (MessageService.userLeft (rendered clock 0)
                                                   (User.username user)));
            Emit (ToRoom (User.room user))
                 (ROOM_USERS (User.room user)
                    (UserService.getRoomUsers store' (User.room user))) ]) ∧
       UserService.getById store' (socket_id socket) = None ∧
       (user ∉ UserService.getRoomUsers store' (User.room user))) ∧
  (UserService.getById store (socket_id socket) = None →
   handleDisconnect clock store socket = (store, socket, [])).
Proof.
  unfold handleDisconnect, UserService.leave, Store.remove,
    UserService.getById, Store.findById.
  split.
  - intros user Hr Hu. apply reachable_indexed in Hr. rewrite Hu.
    eexists. split; [reflexivity|]. simpl. split.
    + rewrite get_delete by apply (ix_nodup _ Hr). now rewrite decide_True.
    + unfold UserService.getRoomUsers, Store.findByRoom. simpl.
      rewrite list_elem_of_filter. intros [_ Hin].
      exact (leave_not_listed _ _ _ Hr Hu Hin).
  - intros ->. reflexivity.
Qed.

Lemma handleDisconnect_effects_witness :
  let store := run_calls [CallJoin "s1" "alice" "general"; CallJoin "s2" "bob" "general"] in
  let user := User.mk "s2" "bob" "general" in
  reachable store ∧
  UserService.getById store "s2" = Some user ∧
  ∃ store',
    handleDisconnect sample_clock store (fresh_socket "s2") =
      (store', fresh_socket "s2",
       [ Emit (ToRoom "general") (MESSAGE (MessageService.userLeft "10:00 am" "bob"));
         Emit (ToRoom "general")
              (ROOM_USERS "general" (UserService.getRoomUsers store' "general")) ]) ∧
    UserService.getById store' "s2" = None ∧
    (user ∉ UserService.getRoomUsers store' "general").
Proof.
  intros store user.
  assert (Hr : reachable store).
  { apply (r_join _ "s2" "bob" "general"); [|discriminate].
    apply (r_join _ "s1" "alice" "general"); [|discriminate].
    apply r_empty. }
  split; [exact Hr|]. split; [reflexivity|].
  exact (proj1 (handleDisconnect_effects sample_clock store (fresh_socket "s2"))
           user Hr eq_refl).
Defined.



(** X25: a typing event of a connected socket never changes the server;
    from a socket that has not joined it is dropped without any event, and
    from a socket that carries an identity it is relayed once, to the room
    of that identity without the sender. *)
Theorem dispatch_typing (clock : Clock) (srv : Server)
    (socketId : string) (d : SocketData) (isTyping : bool) :
  server_reachable srv →
  sockets srv !! socketId = Some d →
  (data_user d = None →
   dispatch clock srv (TYPING socketId isTyping) = (srv, [])) ∧
  (∀ u, data_user d = Some u →
   dispatch clock srv (TYPING socketId isTyping) =
     (srv, [Emit (ToRoomExcept (User.room u) socketId)
                 (USER_TYPING (User.username u) isTyping)])).
Proof.
  intros Hr Hd. simpl. unfold with_socket, handleTyping, resolve_user.
  rewrite Hd. simpl. split.
  - intros Hnone. rewrite Hnone.
    rewrite (unjoined_socket_unregistered _ _ _ Hr Hd Hnone). simpl.
    rewrite insert_id by exact Hd. now destruct srv.
  - intros u Hu. rewrite Hu. simpl.
    rewrite insert_id by exact Hd. now destruct srv.
Qed.

Lemma dispatch_typing_witness :
  let srv := fst (dispatch sample_clock initial_server (CONNECTION "s1")) in
  server_reachable srv ∧
  sockets srv !! "s1" = Some (mkSocketData None None None) ∧
  dispatch sample_clock srv (TYPING "s1" true) = (srv, []).
Proof.
  intros srv.
  assert (Hr : server_reachable srv) by (apply sr_dispatch, sr_initial).
  split; [exact Hr|]. split; [reflexivity|].
  apply (proj1 (dispatch_typing sample_clock srv "s1" (mkSocketData None None None)
                  true Hr eq_refl)).
  reflexivity.
Defined.

Section ServerMore.

Lemma data_user_agrees_dispatch (clock : Clock) (srv : Server) (ev : ClientEvent) :
  server_inv srv →
  (∀ sid d, sockets srv !! sid = Some d →
            data_user d = UserService.getById (registry srv) sid) →
  ∀ sid d, sockets (fst (dispatch clock srv ev)) !! sid = Some d →
           data_user d = UserService.getById (registry (fst (dispatch clock srv ev))) sid.
Proof.
  intros [Hnd Hreg] Hag sid0 d0.
  destruct ev as [sid | sid payload | sid msg | sid b | sid]; simpl.
  - destruct (sockets srv !! sid) as [d|] eqn:Hd; simpl; [apply Hag|].
    rewrite lookup_insert_Some. intros [[<- <-] | [Hne Hd0]]; [|now apply Hag].
    simpl. destruct (UserService.getById (registry srv) sid) as [u|] eqn:Hu; [|reflexivity].
    destruct (Hreg _ _ Hu) as (d' & Hd' & _). congruence.
  - unfold with_socket. destruct (sockets srv !! sid) as [d|] eqn:Hd; simpl; [|apply Hag].
    pose proof (handleJoinRoom_cases clock (registry srv) (mkSocket sid d) payload) as Hc.
    destruct (handleJoinRoom clock (registry srv) (mkSocket sid d) payload)
      as [[store' socket'] effects].
    destruct Hc as [[-> ->] | (user & Hid & -> & Hsid & Hdata)]; simpl in *.
    + rewrite insert_id by exact Hd. apply Hag.
    + unfold UserService.getById, Store.findById. simpl. rewrite get_set, Hid.
      rewrite lookup_insert_Some. intros [[<- <-] | [Hne Hd0]].
      * now rewrite decide_True.
      * rewrite decide_False by exact Hne. now apply Hag.
  - unfold with_socket. destruct (sockets srv !! sid) as [d|] eqn:Hd; simpl; [|apply Hag].
    pose proof (handleChatMessage_cases clock (registry srv) (mkSocket sid d) msg) as Hc.
    destruct (handleChatMessage clock (registry srv) (mkSocket sid d) msg)
      as [[store' socket'] effects].
    destruct Hc as (-> & Hsid & Hdata); simpl in *.
    rewrite lookup_insert_Some. intros [[<- <-] | [Hne Hd0]]; [|now apply Hag].
    rewrite Hdata. now apply Hag.
  - unfold with_socket. destruct (sockets srv !! sid) as [d|] eqn:Hd; simpl; [|apply Hag].
    unfold handleTyping. destruct (resolve_user (registry srv) (mkSocket sid d)); simpl;
      rewrite insert_id by exact Hd; apply Hag.
  - destruct (sockets srv !! sid) as [d|] eqn:Hd; simpl; [|apply Hag].
    unfold handleDisconnect, UserService.leave, Store.remove. simpl.
    destruct (JsMap.get (users (registry srv)) sid) as [user|] eqn:Huser; simpl;
      rewrite lookup_delete_Some; intros [Hne Hd0].
    + unfold UserService.getById, Store.findById. simpl.
      rewrite (get_delete_ne _ _ _ Hne). now apply Hag.
    + now apply Hag.
Qed.

End ServerMore.

(** X26: in every state of the server, what a connected socket carries in
    [socket.data.user] is what the registry holds under the id of the
    socket, so that the two sources the handlers resolve the identity from
    never disagree. *)
Theorem socket_data_agrees_with_registry (srv : Server)
    (socketId : string) (d : SocketData) :
  server_reachable srv →
  sockets srv !! socketId = Some d →
  data_user d = UserService.getById (registry srv) socketId ∧
  resolve_user (registry srv) (mkSocket socketId d) =
    UserService.getById (registry srv) socketId.
Proof.
  intros Hr. revert socketId d.
  assert (Hag : ∀ sid d, sockets srv !! sid = Some d →
                  data_user d = UserService.getById (registry srv) sid).
  { induction Hr as [| clock srv ev Hr IH].
    - intros sid d H. simpl in H. now rewrite lookup_empty in H.
    - apply data_user_agrees_dispatch; [now apply server_reachable_inv | exact IH]. }
  intros socketId d Hd. specialize (Hag _ _ Hd). split; [exact Hag|].
  unfold resolve_user. simpl. rewrite Hag.
  now destruct (UserService.getById (registry srv) socketId).
Qed.

Lemma socket_data_agrees_with_registry_witness :
  let srv :=
    fst (dispatch sample_clock
           (fst (dispatch sample_clock initial_server (CONNECTION "s1")))
           (JOIN_ROOM "s1" (mkJoinRoomPayload "alice" "general"))) in
  let d := mkSocketData (Some (User.mk "s1" "alice" "general")) (Some 0) None in
  server_reachable srv ∧
  sockets srv !! "s1" = Some d ∧
  data_user d = UserService.getById (registry srv) "s1".
Proof.
  intros srv d.
  assert (Hr : server_reachable srv) by (do 2 apply sr_dispatch; apply sr_initial).
  split; [exact Hr|]. split; [reflexivity|].
  apply (socket_data_agrees_with_registry srv "s1" d Hr). reflexivity.
Defined.

Lemma getActiveRooms_distinct_nonempty_witness :
  let store := run_calls [CallJoin "c1" "alice" "general"; CallJoin "c2" "bob" "general";
                          CallJoin "c3" "carol" "random"] in
  UserService.getActiveRooms store = ["general"; "random"] ∧
  "random" ∈ UserService.getActiveRooms store ∧
  (0 < UserService.getRoomCount store "random")%nat.
Proof.
  intros store. split; [reflexivity|].
  assert (Hin : "random" ∈ UserService.getActiveRooms store).
  { apply list_elem_of_further, list_elem_of_here. }
  split; [exact Hin|].
  apply (proj2 (getActiveRooms_distinct_nonempty store) "random" Hin).
Defined.
